(** * go2rtc: RTSP producer core and the streams configuration

    A shallow embedding of
      - [internal/streams/config.go]  (module [streams]),
      - [pkg/rtsp/producer.go]        (module [rtsp]),
    and the properties of their behaviour.

    Conventions of the embedding.
      - Go pointers ([*core.Media], [*core.Receiver], [*core.Sender]) are
        addresses into per-type object stores; an object is allocated at
        the first free address.  Pointer equality is address equality.
      - A Go [byte] is a [Z] reduced modulo 256; [time.Duration] and [int]
        are [Z].
      - A Go [error] value is [option error], [None] being [nil].
      - The methods of [*Conn] that live in other files of the package
        ([Dial], [Describe], [SetupMedia], [Play], [Close], [Handle],
        [Fire]) and the [Close] methods of tracks are parameters: arbitrary
        functions on the store.  Every call of one of them is recorded,
        with its result, in a call log that those functions cannot touch.
      - [stateMu] is not modelled: the semantics is sequential. *)

From Stdlib Require Import ZArith Lia.
From stdpp Require Import base list strings.

Local Open Scope Z_scope.

(* ===================================================================== *)
(** ** internal/streams/config.go *)
(* ===================================================================== *)

Module streams.

(** [time.Duration]: a count of nanoseconds, an [int64]. *)
Definition Duration := Z.

Definition Second : Duration := 1000000000.

Record Backchannel_t := { InactivityTimeout : Duration }.

(** The package-level variable [CFG]. *)
Record CFG_t := { Backchannel : Backchannel_t }.

Definition DefaultBackchannelInactivityTimeout : Duration := 0 * Second.

(** [GetBackchannelInactivityTimeout]: both [return] statements of the
    source return the configured field. *)
Definition GetBackchannelInactivityTimeout (CFG : CFG_t) : Duration :=
  if 0 <? InactivityTimeout (Backchannel CFG)
  then InactivityTimeout (Backchannel CFG)
  else InactivityTimeout (Backchannel CFG).

(** What a YAML file with [inactivity_timeout: d] is loaded as. *)
Definition configured (d : Duration) : CFG_t :=
  {| Backchannel := {| InactivityTimeout := d |} |}.

End streams.

(* ===================================================================== *)
(** ** pkg/rtsp/producer.go: data model *)
(* ===================================================================== *)

Module rtsp.

(** Modelled from the spec: the type [core.Mode] is declared in package
    [core]; the specification's data model lists three roles. *)
Inductive Mode := ModeActiveProducer | ModePassiveConsumer | ModePassiveProducer.

(** Modelled from the spec: the type [State] is declared in another file
    of the package; the specification lists four control states. *)
Inductive State := StateNone | StateConn | StateSetup | StatePlay.

(** A non-nil Go [error], identified with its text. *)
Inductive error := errors_New (text : string).

(** Addresses of heap objects. *)
Definition ptr := nat.

(** Go's [byte]: values produced by this file are reduced modulo 256. *)
Definition byte := Z.
Definition byte_of_int (x : Z) : byte := x mod 256.
Definition byte_mul (a b : byte) : byte := (a * b) mod 256.

(** Modelled from the spec: the direction constants of [core]; a
    direction is a Go string (the source concatenates it into an error
    text), and the constants are the SDP attribute names. *)
Definition DirectionRecvonly : string := "recvonly".
Definition DirectionSendonly : string := "sendonly".

(** What the file uses from package [core] and from the rest of [Conn],
    without their code: the codec type with its compatibility test, the
    printer of modes, and the type of the remaining fields of [Conn]
    (socket, session, embedded [core.Connection], ...). *)
Class Core := {
  Codec : Type;
  Match : Codec -> Codec -> bool;
  Mode_String : Mode -> string;
  Transport : Type
}.

(** [core.Media]: only its direction is read here. *)
Record core_Media := { Direction : string }.

(** [core.Receiver]: the fields this file reads or writes. *)
Record core_Receiver `{Core} := {
  Media : ptr;        (* *core.Media *)
  Codec_ : Codec;     (* the codec selected for the track *)
  ID : byte           (* interleaved channel *)
}.

(** [core.Sender]: only its media is read here. *)
Record core_Sender := { Sender_Media : ptr }.

(** The receiver [c] of every method, [*Conn], together with the objects
    its pointers reach. *)
Record Store `{Core} := {
  mode : Mode;
  state : State;
  Receivers : list ptr;            (* []*core.Receiver *)
  Senders : list ptr;              (* []*core.Sender *)
  transport : Transport;
  medias : list core_Media;        (* objects of type core.Media *)
  receivers : list core_Receiver;  (* objects of type core.Receiver *)
  senders : list core_Sender       (* objects of type core.Sender *)
}.

(** One record per call of a method defined outside this file. *)
Inductive Call :=
| Fire_call (name : string)
| Close_call (err : option error)
| Dial_call (err : option error)
| Describe_call (err : option error)
| SetupMedia_call (media : ptr) (channel : byte) (err : option error)
| Play_call (err : option error)
| Handle_call (err : option error)
| Receiver_Close_call (track : ptr) (err : option error)
| Sender_Close_call (track : ptr) (err : option error).

(** The methods themselves. *)
Class Methods `{Core} := {
  Fire : string -> Store -> Store;
  Close : Store -> Store * option error;
  Dial : Store -> Store * option error;
  Describe : Store -> Store * option error;
  SetupMedia : ptr -> Store -> Store * (byte * option error);
  Play : Store -> Store * option error;
  Handle : Store -> Store * option error;
  Receiver_Close : ptr -> Store -> Store * option error;
  Sender_Close : ptr -> Store -> Store * option error
}.

Record World `{Core} := { store : Store; calls : list Call }.

(** How a method call ends: normally, with a Go panic, or (for the
    loop of [Start] only) with the iteration budget of the model used up. *)
Inductive outcome `{Core} (A : Type) :=
| Done (a : A) (w : World)
| Panic (text : string)
| OutOfFuel.

Arguments Done {_ _} a w.
Arguments Panic {_ _} text.
Arguments OutOfFuel {_ _}.

Definition M `{Core} (A : Type) := World -> outcome A.

Definition ret `{Core} {A} (a : A) : M A := fun w => Done a w.

Definition bind `{Core} {A B} (m : M A) (k : A -> M B) : M B :=
  fun w =>
    match m w with
    | Done a w' => k a w'
    | Panic t => Panic t
    | OutOfFuel => OutOfFuel
    end.

Notation "'let*' x ':=' m 'in' k" := (bind m (fun x => k))
  (at level 10, x pattern, m at level 100, k at level 200).
Notation "m ';;' k" := (bind m (fun _ => k))
  (at level 100, k at level 200, right associativity).

Section Program.
Context `{Methods}.

Definition panic {A} (text : string) : M A := fun _ => Panic text.

(** Reading a field of [c]. *)
Definition read {A} (field : Store -> A) : M A := fun w => Done (field (store w)) w.

Definition modify (f : Store -> Store) : M unit :=
  fun w => Done tt {| store := f (store w); calls := calls w |}.

(** Calling a method defined elsewhere: it runs on the store, and the
    call is appended to the log. *)
Definition call {R} (f : Store -> Store * R) (record : R -> Call) : M R :=
  fun w =>
    let r := f (store w) in
    Done (snd r) {| store := fst r; calls := calls w ++ [record (snd r)] |}.

Definition set_state (s : State) (c : Store) : Store :=
  {| mode := mode c; state := s; Receivers := Receivers c; Senders := Senders c;
     transport := transport c; medias := medias c; receivers := receivers c;
     senders := senders c |}.

Definition set_Receivers (l : list ptr) (c : Store) : Store :=
  {| mode := mode c; state := state c; Receivers := l; Senders := Senders c;
     transport := transport c; medias := medias c; receivers := receivers c;
     senders := senders c |}.

Definition set_receivers (h : list core_Receiver) (c : Store) : Store :=
  {| mode := mode c; state := state c; Receivers := Receivers c; Senders := Senders c;
     transport := transport c; medias := medias c; receivers := h;
     senders := senders c |}.

(** Dereferencing: a pointer that reaches no object is nil. *)
Definition deref {A B} (heap : Store -> list A) (p : ptr) (field : A -> B) : M B :=
  fun w =>
    match heap (store w) !! p with
    | Some o => Done (field o) w
    | None => Panic "invalid memory address or nil pointer dereference"
    end.

(** Modelled from the spec: [core.NewReceiver] is defined in package
    [core]; a track carries the media reference and the codec it was
    created for, and its channel is assigned afterwards.  The object
    is allocated at the first free address. *)
Definition NewReceiver (media : ptr) (codec : Codec) : M ptr :=
  fun w =>
    let c := store w in
    Done (length (receivers c))
         {| store := set_receivers
                       (receivers c ++ [ {| Media := media; Codec_ := codec; ID := 0 |} ]) c;
            calls := calls w |}.

(** [track.ID = channel] *)
Definition assign_ID (track : ptr) (channel : byte) : M unit :=
  fun w =>
    let c := store w in
    match receivers c !! track with
    | Some r =>
        Done tt {| store := set_receivers
                              (<[track := {| Media := Media r; Codec_ := Codec_ r;
                                             ID := channel |}]> (receivers c)) c;
                   calls := calls w |}
    | None => Panic "invalid memory address or nil pointer dereference"
    end.

(** Modelled from the spec: [core.Assert] is defined in package [core];
    a failed assertion fails fast. *)
Definition Assert (ok : bool) : M unit :=
  if ok then ret tt else panic "assert".

(* ------------------------------------------------------------------- *)
(** *** Reconnect *)

(** [for _, t := range tracks { if _, err := c.SetupMedia(t.Media); err != nil { return err } }] *)
Fixpoint restore {A} (heap : Store -> list A) (Media_of : A -> ptr)
    (tracks : list ptr) : M (option error) :=
  match tracks with
  | [] => ret None
  | t :: rest =>
      let* media := deref heap t Media_of in
      let* r := call (SetupMedia media) (fun r => SetupMedia_call media (fst r) (snd r)) in
      match snd r with
      | Some e => ret (Some e)
      | None => restore heap Media_of rest
      end
  end.

Definition Reconnect : M (option error) :=
  call (fun c => (Fire "RTSP reconnect" c, tt)) (fun _ => Fire_call "RTSP reconnect") ;;
  (* close current session *)
  call Close Close_call ;;
  (* start new session *)
  let* err := call Dial Dial_call in
  match err with
  | Some e => ret (Some e)
  | None =>
      let* err := call Describe Describe_call in
      match err with
      | Some e => ret (Some e)
      | None =>
          (* restore previous medias *)
          let* rs := read Receivers in
          let* err := restore receivers Media rs in
          match err with
          | Some e => ret (Some e)
          | None =>
              let* ss := read Senders in
              restore senders Sender_Media ss
          end
      end
  end.

(* ------------------------------------------------------------------- *)
(** *** GetTrack *)

(** The scan of [c.Receivers] at the head of [GetTrack]. *)
Fixpoint cached (media : ptr) (codec : Codec) (tracks : list ptr) : M (option ptr) :=
  match tracks with
  | [] => ret None
  | track :: rest =>
      let* m := deref receivers track Media in
      if decide (m = media) then
        let* k := deref receivers track Codec_ in
        if Match k codec then ret (Some track) else cached media codec rest
      else cached media codec rest
  end.

(** The part of [GetTrack] after the [switch]. *)
Definition register (media : ptr) (codec : Codec) (channel : byte)
    : M (option ptr * option error) :=
  let* d := deref medias media Direction in
  if decide (d = DirectionRecvonly) then
    let* track := NewReceiver media codec in
    assign_ID track channel ;;
    let* rs := read Receivers in
    modify (set_Receivers (rs ++ [track])) ;;
    ret (Some track, None)
  else
    let* m := read mode in
    ret (None, Some (errors_New
           ("rtsp: GetTrack internal logic error for mode/direction: "
              +:+ Mode_String m +:+ "/" +:+ d))).

Definition GetTrack (media : ptr) (codec : Codec) : M (option ptr * option error) :=
  let* d := deref medias media Direction in
  let* hit := (if decide (d = DirectionRecvonly)
               then let* rs := read Receivers in cached media codec rs
               else ret None) in
  match hit with
  | Some track => ret (Some track, None)
  | None =>
      let* m := read mode in
      match m with
      | ModeActiveProducer =>
          let* s := read state in
          let* err := (match s with StatePlay => Reconnect | _ => ret None end) in
          match err with
          | Some e => ret (None, Some e)
          | None =>
              let* r := call (SetupMedia media)
                             (fun r => SetupMedia_call media (fst r) (snd r)) in
              match snd r with
              | Some e => ret (None, Some e)
              | None =>
                  modify (set_state StateSetup) ;;
                  let* d := deref medias media Direction in
                  if decide (d = DirectionSendonly) then
                    let* newTrack := NewReceiver media codec in
                    assign_ID newTrack (fst r) ;;
                    ret (Some newTrack, None)
                  else register media codec (fst r)
              end
          end
      | ModePassiveConsumer =>
          let* d := deref medias media Direction in
          let* channel :=
            (if decide (d = DirectionRecvonly)
             then let* rs := read Receivers in
                  ret (byte_of_int (Z.of_nat (length rs) * 2))
             else let* ss := read Senders in
                  ret (byte_mul (byte_of_int (Z.of_nat (length ss))) 2)) in
          register media codec channel
      | ModePassiveProducer =>
          ret (None, Some (errors_New ("rtsp: wrong mode for GetTrack: " +:+ Mode_String m)))
      end
  end.

(* ------------------------------------------------------------------- *)
(** *** Start *)

(** The [for] loop of [Start]; [err] is the named result, which keeps
    its value from one iteration to the next. *)
Fixpoint Start_loop (fuel : nat) (err : option error) : M (option error) :=
  match fuel with
  | O => fun _ => OutOfFuel
  | S fuel' =>
      let* s := read state in
      let* r :=
        (match s with
         | StateNone => ret (None, false)
         | StateConn => ret (Some (errors_New "start from CONN state"), false)
         | StateSetup =>
             let* m := read mode in
             let* err :=
               (match m with
                | ModeActiveProducer => call Play Play_call
                | ModePassiveProducer => ret None
                | _ => ret (Some (errors_New ("start from wrong mode: " +:+ Mode_String m)))
                end) in
             match err with
             | None => modify (set_state StatePlay) ;; ret (None, true)
             | Some e => ret (Some e, false)
             end
         | StatePlay => ret (err, false)
         end) in
      if negb (snd r) then ret (fst r)
      else
        let* err := call Handle Handle_call in
        Start_loop fuel' err
  end.

Definition Start (fuel : nat) : M (option error) :=
  let* m := read mode in
  Assert (match m with
          | ModeActiveProducer | ModePassiveProducer => true
          | _ => false
          end) ;;
  Start_loop fuel None.

(* ------------------------------------------------------------------- *)
(** *** Stop *)

(** [for _, t := range tracks { t.Close() }] *)
Fixpoint close_all (Close_of : ptr -> Store -> Store * option error)
    (record : ptr -> option error -> Call) (tracks : list ptr) : M unit :=
  match tracks with
  | [] => ret tt
  | t :: rest => call (Close_of t) (record t) ;; close_all Close_of record rest
  end.

Definition Stop : M (option error) :=
  let* rs := read Receivers in
  close_all Receiver_Close Receiver_Close_call rs ;;
  let* ss := read Senders in
  close_all Sender_Close Sender_Close_call ss ;;
  let* s := read state in
  match s with
  | StateNone => ret None
  | _ => modify (set_state StateNone) ;; call Close Close_call
  end.

End Program.

(* ------------------------------------------------------------------- *)
(** *** Vocabulary of the properties *)

Section Vocabulary.
Context `{Methods}.

(** A method does not write a field of the store. *)
Definition keeps {A R} (field : Store -> A) (f : Store -> Store * R) : Prop :=
  forall c, field (fst (f c)) = field c.

(** None of the five methods that [Reconnect] calls writes the field. *)
Definition session_keeps {A} (field : Store -> A) : Prop :=
  (forall name, keeps field (fun c => (Fire name c, tt))) /\
  keeps field Close /\ keeps field Dial /\ keeps field Describe /\
  (forall media, keeps field (SetupMedia media)).

(** Every registered track points to an object. *)
Definition allocated {A} (heap : list A) (tracks : list ptr) : Prop :=
  forall t, t ∈ tracks -> is_Some (heap !! t).

(** Track [t] is an object for this media reference with a codec
    compatible with [codec]. *)
Definition compatible (c : Store) (media : ptr) (codec : Codec) (t : ptr) : Prop :=
  exists r, receivers c !! t = Some r /\ Media r = media /\ Match (Codec_ r) codec = true.

Definition incompatible (c : Store) (media : ptr) (codec : Codec) (t : ptr) : Prop :=
  exists r, receivers c !! t = Some r /\ ~ (Media r = media /\ Match (Codec_ r) codec = true).

(** [t] is the cached entry for the request: the first registered
    receiver that is compatible with it. *)
Definition cache_entry (c : Store) (media : ptr) (codec : Codec) (t : ptr) : Prop :=
  exists before after,
    Receivers c = before ++ t :: after /\
    compatible c media codec t /\
    forall u, u ∈ before -> incompatible c media codec u.

(** No registered receiver is compatible with the request. *)
Definition not_cached (c : Store) (media : ptr) (codec : Codec) : Prop :=
  forall u, u ∈ Receivers c -> incompatible c media codec u.

(** A sequence of requests for one media reference. *)
Fixpoint GetTrack_each (media : ptr) (codecs : list Codec)
    : M (list (option ptr * option error)) :=
  match codecs with
  | [] => ret []
  | k :: ks =>
      let* r := GetTrack media k in
      let* rs := GetTrack_each media ks in
      ret (r :: rs)
  end.

(** The media references of a list of tracks. *)
Definition medias_of {A} (heap : list A) (Media_of : A -> ptr) (tracks : list ptr)
    : list ptr :=
  omap (fun t => Media_of <$> heap !! t) tracks.

(** The calls of a SETUP replay over a list of media references, and
    its result: every media in order, up to and including the first
    failure. *)
Inductive replay_trace : list ptr -> list Call -> option error -> Prop :=
| replay_end : replay_trace [] [] None
| replay_next media rest channel tr err :
    replay_trace rest tr err ->
    replay_trace (media :: rest) (SetupMedia_call media channel None :: tr) err
| replay_abort media rest channel e :
    replay_trace (media :: rest) [SetupMedia_call media channel (Some e)] (Some e).

(** The calls of [Reconnect] and its result, as the specification lists
    them: Fire, Close (result ignored), Dial, Describe, then the
    replay; the first failure of Dial, Describe or a SETUP ends it. *)
Inductive reconnect_trace (replayed : list ptr) : list Call -> option error -> Prop :=
| reconnect_Dial_failed rc e :
    reconnect_trace replayed
      [Fire_call "RTSP reconnect"; Close_call rc; Dial_call (Some e)] (Some e)
| reconnect_Describe_failed rc e :
    reconnect_trace replayed
      [Fire_call "RTSP reconnect"; Close_call rc; Dial_call None;
       Describe_call (Some e)] (Some e)
| reconnect_replay rc tr err :
    replay_trace replayed tr err ->
    reconnect_trace replayed
      (Fire_call "RTSP reconnect" :: Close_call rc :: Dial_call None
         :: Describe_call None :: tr) err.

(** The store after a new receiver object for the request, with the
    given channel, has been allocated and appended to [c.Receivers]. *)
Definition with_receiver (c : Store) (media : ptr) (codec : Codec) (channel : byte)
    : Store :=
  set_Receivers (Receivers c ++ [length (receivers c)])
    (set_receivers
       (receivers c ++ [ {| Media := media; Codec_ := codec; ID := channel |} ]) c).

(** The store after a new receiver object has been allocated and left
    unregistered. *)
Definition with_unregistered (c : Store) (media : ptr) (codec : Codec) (channel : byte)
    : Store :=
  set_receivers
    (receivers c ++ [ {| Media := media; Codec_ := codec; ID := channel |} ]) c.

(** The store with which [Stop] calls the transport's [Close]. *)
Definition closing_store (c : Store) : Store := set_state StateNone c.

End Vocabulary.

(* ------------------------------------------------------------------- *)
(** *** Invariants and traces *)

Section Invariants.
Context `{Methods}.

(** [c2] is a store that the session methods and assignments to
    [c.state] can lead to from [c]: every field that those methods do
    not write, and that is not the state, has the value it has in [c]. *)
Definition reached (c c2 : Store) : Prop :=
  forall B (field : Store -> B),
    session_keeps field ->
    (forall s c', field (set_state s c') = field c') ->
    field c2 = field c.

(** A request is not answered by the scan at the head of [GetTrack]:
    the media is not recvonly, or nothing registered is compatible. *)
Definition not_served (c : Store) (md : core_Media) (media : ptr) (codec : Codec) : Prop :=
  Direction md = DirectionRecvonly -> not_cached c media codec.

(** The receiver registered at position [i] has channel [byte(i * 2)]. *)
Definition channels_by_position (c : Store) : Prop :=
  forall i t r,
    Receivers c !! i = Some t -> receivers c !! t = Some r ->
    ID r = byte_of_int (Z.of_nat i * 2).

(** The calls that [Start] can make on a connection of mode [m]: rounds
    of a successful Play (ActiveProducer only) followed by Handle, ended
    by nothing or by a failed Play. *)
Inductive start_trace (m : Mode) : list Call -> Prop :=
| start_returns : start_trace m []
| start_Play_failed e :
    m = ModeActiveProducer -> start_trace m [Play_call (Some e)]
| start_round_active herr tr :
    m = ModeActiveProducer -> start_trace m tr ->
    start_trace m (Play_call None :: Handle_call herr :: tr)
| start_round_passive herr tr :
    m = ModePassiveProducer -> start_trace m tr ->
    start_trace m (Handle_call herr :: tr).

(** The two registries of a connection, and its control part. *)
Definition registries (c : Store) : list ptr * list ptr := (Receivers c, Senders c).
Definition control (c : Store) : State * (list ptr * list ptr) := (state c, registries c).

End Invariants.

(* ------------------------------------------------------------------- *)
(** *** The steps of the methods, store by store *)

Section Steps.
Context `{Methods}.

(** Closing tracks in order: each [Close] runs on the store that the one
    before it left.  The store at the end, and what each call returned. *)
Fixpoint close_run (Close_of : ptr -> Store -> Store * option error)
    (tracks : list ptr) (c : Store) : Store * list (option error) :=
  match tracks with
  | [] => (c, [])
  | t :: rest =>
      let r := Close_of t c in
      let r' := close_run Close_of rest (fst r) in
      (fst r', snd r :: snd r')
  end.

(** A SETUP replay over a list of media references, started on store
    [c]: every SETUP runs on the store the previous one left and is
    logged with what it returned; the replay goes through the list in
    order and ends after the first SETUP that fails, on the store that
    SETUP left and with its error. *)
Inductive replay_steps : list ptr -> Store -> list Call -> Store -> option error -> Prop :=
| replay_steps_end c : replay_steps [] c [] c None
| replay_steps_next media rest c c1 channel tr c' err :
    SetupMedia media c = (c1, (channel, None)) ->
    replay_steps rest c1 tr c' err ->
    replay_steps (media :: rest) c (SetupMedia_call media channel None :: tr) c' err
| replay_steps_abort media rest c c1 channel e :
    SetupMedia media c = (c1, (channel, Some e)) ->
    replay_steps (media :: rest) c [SetupMedia_call media channel (Some e)] c1 (Some e).

(** The steps of [Reconnect] started on store [c], as the specification
    lists them, each on the store the step before it left: Fire, Close
    (its result is logged, not looked at), Dial, Describe, then the
    replay.  The first of Dial, Describe and the SETUPs to fail ends the
    sequence; its error is the result. *)
Inductive reconnect_steps (replayed : list ptr) (c : Store)
  : list Call -> Store -> option error -> Prop :=
| reconnect_steps_Dial c2 rc c3 e :
    Close (Fire "RTSP reconnect" c) = (c2, rc) ->
    Dial c2 = (c3, Some e) ->
    reconnect_steps replayed c
      [Fire_call "RTSP reconnect"; Close_call rc; Dial_call (Some e)] c3 (Some e)
| reconnect_steps_Describe c2 rc c3 c4 e :
    Close (Fire "RTSP reconnect" c) = (c2, rc) ->
    Dial c2 = (c3, None) ->
    Describe c3 = (c4, Some e) ->
    reconnect_steps replayed c
      [Fire_call "RTSP reconnect"; Close_call rc; Dial_call None; Describe_call (Some e)]
      c4 (Some e)
| reconnect_steps_replay c2 rc c3 c4 tr c' err :
    Close (Fire "RTSP reconnect" c) = (c2, rc) ->
    Dial c2 = (c3, None) ->
    Describe c3 = (c4, None) ->
    replay_steps replayed c4 tr c' err ->
    reconnect_steps replayed c
      (Fire_call "RTSP reconnect" :: Close_call rc :: Dial_call None
         :: Describe_call None :: tr) c' err.

End Steps.

End rtsp.

(* ===================================================================== *)
(** ** A scripted peer: concrete methods to run the embedding on *)
(* ===================================================================== *)

Module scripted.
Import rtsp.

(** Codecs by name; a request for ["ANY"] matches every track. *)
#[export] Instance core : Core := {|
  Codec := string;
  Match := fun c remote => bool_decide (remote = "ANY") || bool_decide (c = remote);
  Mode_String := fun m =>
    match m with
    | ModeActiveProducer => "active producer"
    | ModePassiveConsumer => "passive consumer"
    | ModePassiveProducer => "passive producer"
    end;
  Transport := nat
|}.

Definition H264 : @Codec core := "H264".
Definition PCMA : @Codec core := "PCMA".

Definition fails_when (script : nat) (text : string) (c : Store) : option error :=
  if decide (transport c = script) then Some (errors_New text) else None.

(** The number kept in [transport] selects the step that fails: 1 Dial,
    2 Describe, 3 the SETUP of media 1, 4 Close, 5 Play, 6 Handle.  SETUP
    answers with twice the media's address.  Handle ends the session,
    except under script 6, where it fails and leaves the state alone.
    Closing receiver 0 reports an error. *)
#[export] Instance methods : Methods := {|
  Fire := fun _ c => c;
  Close := fun c => (c, fails_when 4 "close" c);
  Dial := fun c => (c, fails_when 1 "dial" c);
  Describe := fun c => (c, fails_when 2 "describe" c);
  SetupMedia := fun media c =>
    (c, (byte_of_int (Z.of_nat media * 2),
         if decide (media = 1%nat) then fails_when 3 "setup" c else None));
  Play := fun c => (c, fails_when 5 "play" c);
  Handle := fun c =>
    if decide (transport c = 6%nat) then (c, Some (errors_New "handle"))
    else (set_state StateNone c, None);
  Receiver_Close := fun t c =>
    (c, if decide (t = 0%nat) then Some (errors_New "receiver close") else None);
  Sender_Close := fun _ c => (c, None)
|}.

Definition recvonly : core_Media := {| Direction := DirectionRecvonly |}.
Definition sendonly : core_Media := {| Direction := DirectionSendonly |}.
Definition sendrecv : core_Media := {| Direction := "sendrecv" |}.

(** Media 0 and 1 are recvonly, 2 is sendonly, 3 is sendrecv, and 4 to
    133 are recvonly. *)
Definition media_objects : list core_Media :=
  [recvonly; recvonly; sendonly; sendrecv] ++ replicate 130 recvonly.

(** A connection with nothing registered. *)
Definition fresh_conn (m : Mode) (s : State) (script : nat) : World :=
  {| store := {| mode := m; state := s; Receivers := []; Senders := [];
                 transport := script; medias := media_objects;
                 receivers := []; senders := [] |};
     calls := [] |}.

(** A connection with receivers 0 and 1 (medias 0 and 1) and sender 0
    (media 2) registered. *)
Definition busy_conn (m : Mode) (s : State) (script : nat) : World :=
  {| store := {| mode := m; state := s; Receivers := [0; 1]%nat; Senders := [0%nat];
                 transport := script; medias := media_objects;
                 receivers := [ {| Media := 0%nat; Codec_ := H264; ID := 0 |};
                                {| Media := 1%nat; Codec_ := PCMA; ID := 2 |} ];
                 senders := [ {| Sender_Media := 2%nat |} ] |};
     calls := [] |}.

(** The world a computation ends in ([w] itself if it does not end). *)
Definition world_after {A} (m : M A) (w : World) : World :=
  match m w with
  | Done _ w' => w'
  | _ => w
  end.

(** A server-side connection on which medias 4, 5, ..., 131 have been
    requested in turn: 128 receivers. *)
Definition crowded_conn : World :=
  fold_left (fun w media => world_after (GetTrack media H264) w)
            (seq 4 128) (fresh_conn ModePassiveConsumer StateNone 0).


(** A request for any codec. *)
Definition ANY : @Codec core := "ANY".

(** Modelled from the spec: [Dial] is defined in another file of the
    package.  The specification describes [StateConn] as the state of a
    connection whose transport is connected but not set up, and a
    reconnection as a new Conn, Setup, Play sequence: a [Dial] that
    succeeds leaves the connection in [StateConn].  The other methods
    are those of [methods]. *)
Definition dialing : Methods := {|
  Fire := fun _ c => c;
  Close := fun c => (c, fails_when 4 "close" c);
  Dial := fun c =>
    match fails_when 1 "dial" c with
    | Some e => (c, Some e)
    | None => (set_state StateConn c, None)
    end;
  Describe := fun c => (c, fails_when 2 "describe" c);
  SetupMedia := fun media c =>
    (c, (byte_of_int (Z.of_nat media * 2),
         if decide (media = 1%nat) then fails_when 3 "setup" c else None));
  Play := fun c => (c, fails_when 5 "play" c);
  Handle := fun c =>
    if decide (transport c = 6%nat) then (c, Some (errors_New "handle"))
    else (set_state StateNone c, None);
  Receiver_Close := fun t c =>
    (c, if decide (t = 0%nat) then Some (errors_New "receiver close") else None);
  Sender_Close := fun _ c => (c, None)
|}.

(** A client connection on which media 0 has been requested with codec
    H264: receiver 0. *)
Definition one_track_conn : World :=
  world_after (GetTrack 0%nat H264) (fresh_conn ModeActiveProducer StateNone 0).

End scripted.

(* ===================================================================== *)
(** * Properties *)
(* ===================================================================== *)

Import rtsp.

(** ** The configured inactivity timeout *)

Lemma GetBackchannelInactivityTimeout_is_field (CFG : streams.CFG_t) :
  streams.GetBackchannelInactivityTimeout CFG
  = streams.InactivityTimeout (streams.Backchannel CFG).
Proof.
  unfold streams.GetBackchannelInactivityTimeout.
  destruct (0 <? _); reflexivity.
Qed.

Lemma GetBackchannelInactivityTimeout_positive (d : streams.Duration) :
  0 < d -> streams.GetBackchannelInactivityTimeout (streams.configured d) = d.
Proof. intros _. apply GetBackchannelInactivityTimeout_is_field. Qed.

(** C4: with [inactivity_timeout: -5s] configured, the function returns
    minus five seconds, not zero: the value that is not positive is
    returned as it is. *)
Theorem GetBackchannelInactivityTimeout_negative :
  streams.GetBackchannelInactivityTimeout (streams.configured (-5 * streams.Second))
  = -5000000000
  /\ streams.GetBackchannelInactivityTimeout (streams.configured (-5 * streams.Second))
     <> streams.DefaultBackchannelInactivityTimeout.
Proof. split; [reflexivity | discriminate]. Qed.

(** ** Running the monad *)

Section Run.
Context `{Methods}.

Lemma bind_Done {A B} (m : M A) (k : A -> M B) w a w' :
  m w = Done a w' -> bind m k w = k a w'.
Proof. intros E. unfold bind. rewrite E. reflexivity. Qed.

Lemma bind_inv {A B} (m : M A) (k : A -> M B) w b w2 :
  bind m k w = Done b w2 -> exists a w1, m w = Done a w1 /\ k a w1 = Done b w2.
Proof.
  unfold bind. destruct (m w) as [a w1| |]; try discriminate. eauto.
Qed.

Lemma deref_Done {A B} (heap : Store -> list A) (field : A -> B) p o w :
  heap (store w) !! p = Some o -> deref heap p field w = Done (field o) w.
Proof. intros E. unfold deref. rewrite E. reflexivity. Qed.

Lemma deref_inv {A B} (heap : Store -> list A) (field : A -> B) p w b w' :
  deref heap p field w = Done b w' ->
  w' = w /\ exists o, heap (store w) !! p = Some o /\ b = field o.
Proof.
  unfold deref. destruct (heap (store w) !! p) as [o|]; [|discriminate].
  intros [= <- <-]. eauto.
Qed.

End Run.

(** Case analysis on the method's world after a successful [bind]. *)
Ltac bind_inv H :=
  let a := fresh "a" in
  let w := fresh "w" in
  let E := fresh "E" in
  apply bind_inv in H; destruct H as (a & w & E & H).

(** From [Done a w = Done b w'] to the two equalities, substituted. *)
Ltac Done_inv H :=
  unfold ret, read, call, modify in H; cbv beta zeta in H;
  first [ discriminate H | injection H; clear H; intros; subst ].

(** ** Start *)

Section StartProperties.
Context `{Methods}.

Lemma Start_loop_Conn fuel err w :
  state (store w) = StateConn ->
  Start_loop (S fuel) err w = Done (Some (errors_New "start from CONN state")) w.
Proof.
  intros E. simpl. unfold bind, read. rewrite E. reflexivity.
Qed.

Lemma Start_loop_Play fuel err w :
  state (store w) = StatePlay -> Start_loop (S fuel) err w = Done err w.
Proof.
  intros E. simpl. unfold bind, read. rewrite E. reflexivity.
Qed.

Lemma Start_asserted fuel w :
  mode (store w) <> ModePassiveConsumer -> Start fuel w = Start_loop fuel None w.
Proof.
  intros Hm. unfold Start, bind, read.
  destruct (mode (store w)); try reflexivity. congruence.
Qed.

(** C7: when the state inspected by an iteration of [Start] is [StateConn]
    (on entry, or after any number of earlier iterations, whatever error
    is pending), [Start] returns the error "start from CONN state" at
    once: the world is the one it inspected, so [Handle] is not called
    and the state is still [StateConn]. *)
Theorem Start_from_Conn fuel err w :
  state (store w) = StateConn ->
  Start_loop (S fuel) err w = Done (Some (errors_New "start from CONN state")) w
  /\ (mode (store w) <> ModePassiveConsumer ->
      Start (S fuel) w = Done (Some (errors_New "start from CONN state")) w).
Proof.
  intros E. split.
  - by apply Start_loop_Conn.
  - intros Hm. rewrite Start_asserted by done. by apply Start_loop_Conn.
Qed.


End StartProperties.

(** ** Stop *)

Section StopProperties.
Context `{Methods}.

(** The closing loop never stops early: one call per track, in order,
    whatever each call returns; and it writes no field that the [Close]
    method of the tracks does not write. *)
Lemma close_all_spec (Close_of : ptr -> Store -> Store * option error)
    (record : ptr -> option error -> Call) (tracks : list ptr) w :
  exists w1 results,
    close_all Close_of record tracks w = Done tt w1
    /\ length results = length tracks
    /\ calls w1 = calls w ++ zip_with record tracks results
    /\ forall A (field : Store -> A),
         (forall t, keeps field (Close_of t)) -> field (store w1) = field (store w).
Proof.
  revert w. induction tracks as [|t rest IH]; intros w.
  - exists w, []. simpl. rewrite app_nil_r. auto.
  - simpl. unfold bind at 1. unfold call at 1.
    destruct (IH {| store := fst (Close_of t (store w));
                    calls := calls w ++ [record t (snd (Close_of t (store w)))] |})
      as (w1 & results & E & Hlen & Hcalls & Hframe).
    exists w1, (snd (Close_of t (store w)) :: results).
    split; [exact E|]. split; [simpl; lia|]. split.
    + rewrite Hcalls. simpl. rewrite <- app_assoc. reflexivity.
    + intros A field Hk. rewrite (Hframe A field Hk). simpl. apply Hk.
Qed.

Lemma closing_store_state c : state (closing_store c) = StateNone.
Proof. reflexivity. Qed.

(** The closing loop is [close_run]: it calls the [Close] of every track
    once, in order, each on the store the one before left, and logs
    what each call returned. *)
Lemma close_all_run (Close_of : ptr -> Store -> Store * option error)
    (record : ptr -> option error -> Call) (tracks : list ptr) w :
  close_all Close_of record tracks w
  = Done tt {| store := fst (close_run Close_of tracks (store w));
               calls := calls w ++ zip_with record tracks
                                     (snd (close_run Close_of tracks (store w))) |}.
Proof.
  revert w. induction tracks as [|t rest IH]; intros w.
  - simpl. rewrite app_nil_r. by destruct w.
  - simpl close_all. unfold bind at 1. unfold call at 1. cbv beta zeta.
    rewrite IH. cbn [store calls close_run fst snd zip_with].
    rewrite <- app_assoc. reflexivity.
Qed.

Lemma close_run_length Close_of tracks c :
  length (snd (close_run Close_of tracks c)) = length tracks.
Proof.
  revert c. induction tracks as [|t rest IH]; intros c; [reflexivity|].
  simpl. by rewrite IH.
Qed.

Lemma close_run_keeps {A} (field : Store -> A) Close_of tracks c :
  (forall t, keeps field (Close_of t)) ->
  field (fst (close_run Close_of tracks c)) = field c.
Proof.
  intros Hk. revert c. induction tracks as [|t rest IH]; intros c; [reflexivity|].
  simpl. rewrite IH. apply Hk.
Qed.

(** The result logged for the track at position [i] is what its [Close]
    returned on the store left by the closes of the tracks before it. *)
Lemma close_run_lookup Close_of tracks c i t :
  tracks !! i = Some t ->
  snd (close_run Close_of tracks c) !! i
  = Some (snd (Close_of t (fst (close_run Close_of (take i tracks) c)))).
Proof.
  revert c i. induction tracks as [|u rest IH]; intros c i Hi; [discriminate|].
  destruct i as [|i].
  - injection Hi as ->. reflexivity.
  - simpl in Hi. simpl. by apply IH.
Qed.

(** [Stop], step by step. *)
Lemma Stop_run w :
  let rc := close_run Receiver_Close (Receivers (store w)) (store w) in
  let sc := close_run Sender_Close (Senders (fst rc)) (fst rc) in
  let w1 := {| store := fst sc;
               calls := calls w
                 ++ zip_with Receiver_Close_call (Receivers (store w)) (snd rc)
                 ++ zip_with Sender_Close_call (Senders (fst rc)) (snd sc) |} in
  Stop w = match state (fst sc) with
           | StateNone => Done None w1
           | _ => Done (snd (Close (closing_store (fst sc))))
                       {| store := fst (Close (closing_store (fst sc)));
                          calls := calls w1
                            ++ [Close_call (snd (Close (closing_store (fst sc))))] |}
           end.
Proof.
  cbv zeta. unfold Stop.
  unfold bind at 1. unfold read at 1.
  rewrite (bind_Done _ _ _ _ _ (close_all_run _ _ _ w)).
  unfold bind at 1. unfold read at 1. cbn [store].
  erewrite bind_Done; [|apply close_all_run]. cbn [store calls].
  unfold bind at 1. unfold read at 1. cbn [store].
  rewrite <- app_assoc.
  destruct (state (fst (close_run Sender_Close _ _))); reflexivity.
Qed.

(** C5: [Stop] calls the [Close] of every receiver and then of every
    sender, once each and in registration order, each on the store that
    the close before it left and whatever the earlier closes returned:
    the log holds one entry per track with the result that its [Close]
    returned.  Then, if the state was [StateNone], it returns nil with no
    call of the transport's [Close]; otherwise it calls the transport's
    [Close] once, on the store the track closes left with its state set
    to [StateNone], and returns what that call returned.  The track
    [Close] methods are assumed not to write [c.state] or [c.Senders]. *)
Theorem Stop_spec w :
  (forall t, keeps state (Receiver_Close t)) ->
  (forall t, keeps Senders (Receiver_Close t)) ->
  (forall t, keeps state (Sender_Close t)) ->
  let rs := Receivers (store w) in
  let ss := Senders (store w) in
  let rc := close_run Receiver_Close rs (store w) in
  let sc := close_run Sender_Close ss (fst rc) in
  let w1 := {| store := fst sc;
               calls := calls w ++ zip_with Receiver_Close_call rs (snd rc)
                                ++ zip_with Sender_Close_call ss (snd sc) |} in
  length (snd rc) = length rs
  /\ length (snd sc) = length ss
  /\ (forall i t, rs !! i = Some t ->
        snd rc !! i
        = Some (snd (Receiver_Close t (fst (close_run Receiver_Close (take i rs) (store w))))))
  /\ (forall i t, ss !! i = Some t ->
        snd sc !! i
        = Some (snd (Sender_Close t (fst (close_run Sender_Close (take i ss) (fst rc))))))
  /\ (state (store w) = StateNone -> Stop w = Done None w1)
  /\ (state (store w) <> StateNone ->
      state (closing_store (fst sc)) = StateNone
      /\ Stop w = Done (snd (Close (closing_store (fst sc))))
                       {| store := fst (Close (closing_store (fst sc)));
                          calls := calls w1
                            ++ [Close_call (snd (Close (closing_store (fst sc))))] |}).
Proof.
  intros Hrs Hrl Hss. cbv zeta.
  assert (HS : Senders (fst (close_run Receiver_Close (Receivers (store w)) (store w)))
               = Senders (store w)) by (by apply close_run_keeps).
  assert (Hst : state (fst (close_run Sender_Close (Senders (store w))
                              (fst (close_run Receiver_Close (Receivers (store w)) (store w)))))
                = state (store w)).
  { rewrite close_run_keeps by exact Hss. by apply close_run_keeps. }
  pose proof (Stop_run w) as HStop. cbv zeta in HStop. rewrite HS, Hst in HStop.
  split; [apply close_run_length|]. split; [apply close_run_length|].
  split; [intros i t Hi; by apply close_run_lookup|].
  split; [intros i t Hi; by apply close_run_lookup|].
  split.
  - intros E. rewrite HStop, E. reflexivity.
  - intros NE. split; [reflexivity|]. rewrite HStop.
    destruct (state (store w)); [congruence | reflexivity ..].
Qed.

End StopProperties.

(** ** Reconnect *)

Section ReconnectProperties.
Context `{Methods}.

Lemma replay_steps_app ms1 ms2 c c1 c2 tr1 tr2 err :
  replay_steps ms1 c tr1 c1 None -> replay_steps ms2 c1 tr2 c2 err ->
  replay_steps (ms1 ++ ms2) c (tr1 ++ tr2) c2 err.
Proof.
  intros H1. remember None as none eqn:En. revert En.
  induction H1 as [c|media rest c c' channel tr c'' err1 HS H1 IH|]; intros En H2; simpl.
  - exact H2.
  - apply replay_steps_next with (c1 := c'); [exact HS | by apply IH].
  - discriminate.
Qed.

Lemma replay_steps_failed ms1 ms2 c c1 tr e :
  replay_steps ms1 c tr c1 (Some e) -> replay_steps (ms1 ++ ms2) c tr c1 (Some e).
Proof.
  intros H1. remember (Some e) as failed eqn:En. revert En.
  induction H1 as [c|media rest c c' channel tr c'' err1 HS H1 IH|media rest c c' channel e' HS];
    intros En; simpl.
  - discriminate.
  - apply replay_steps_next with (c1 := c'); [exact HS | by apply IH].
  - by apply replay_steps_abort.
Qed.

(** The steps, with the stores forgotten, are a trace of the replay. *)
Lemma replay_steps_trace ms c tr c' err :
  replay_steps ms c tr c' err -> replay_trace ms tr err.
Proof.
  induction 1; [apply replay_end | by apply replay_next | apply replay_abort].
Qed.

Lemma reconnect_steps_trace ms c tr c' err :
  reconnect_steps ms c tr c' err -> reconnect_trace ms tr err.
Proof.
  destruct 1 as [| |c2 rc c3 c4 tr c' err HC HD HDe Hrep].
  - apply reconnect_Dial_failed.
  - apply reconnect_Describe_failed.
  - apply reconnect_replay. by apply replay_steps_trace with (c := c4) (c' := c').
Qed.

(** A replay loop over allocated tracks ends, and what it does is the
    replay, step by step, over the stored media of the tracks. *)
Lemma restore_steps {A} (heap : Store -> list A) (Media_of : A -> ptr) tracks w :
  (forall media, keeps heap (SetupMedia media)) ->
  allocated (heap (store w)) tracks ->
  exists err c' tr,
    restore heap Media_of tracks w = Done err {| store := c'; calls := calls w ++ tr |}
    /\ replay_steps (medias_of (heap (store w)) Media_of tracks) (store w) tr c' err.
Proof.
  intros Hheap. revert w. induction tracks as [|t rest IH]; intros w Halloc.
  - exists None, (store w), []. simpl. rewrite app_nil_r.
    split; [by destruct w | apply replay_steps_end].
  - destruct (Halloc t) as [o Ho]; [by left|].
    assert (Hrest : allocated (heap (store w)) rest).
    { intros u Hu. apply Halloc. by right. }
    simpl. rewrite (bind_Done _ _ _ _ _ (deref_Done heap Media_of t o w Ho)).
    unfold medias_of. simpl. rewrite Ho. simpl.
    unfold bind at 1. unfold call at 1.
    destruct (SetupMedia (Media_of o) (store w)) as [c1 [channel [e|]]] eqn:ES; simpl.
    + eexists _, _, [_]. split; [reflexivity|]. by apply replay_steps_abort.
    + assert (Hh1 : heap c1 = heap (store w)).
      { specialize (Hheap (Media_of o) (store w)). by rewrite ES in Hheap. }
      destruct (IH {| store := c1;
                      calls := calls w ++ [SetupMedia_call (Media_of o) channel None] |})
        as (err & c' & tr & E & Htr).
      { simpl. by rewrite Hh1. }
      simpl in *. rewrite Hh1 in Htr.
      exists err, c', (SetupMedia_call (Media_of o) channel None :: tr).
      split; [rewrite E, <- app_assoc; reflexivity|].
      by apply replay_steps_next with (c1 := c1).
Qed.

(** The replay loop writes nothing of its own, whether or not it ends
    normally. *)
Lemma restore_frame {A B} (heap : Store -> list A) (Media_of : A -> ptr)
    (field : Store -> B) tracks w err w' :
  (forall media, keeps field (SetupMedia media)) ->
  restore heap Media_of tracks w = Done err w' ->
  field (store w') = field (store w).
Proof.
  intros Hk. revert w. induction tracks as [|t rest IH]; intros w E; simpl in E.
  - by Done_inv E.
  - bind_inv E. apply deref_inv in E0 as (-> & o & Ho & ->).
    bind_inv E. Done_inv E0. simpl in E. revert E.
    destruct (snd (snd (SetupMedia (Media_of o) (store w)))); intros E.
    + Done_inv E. simpl. apply Hk.
    + apply IH in E. rewrite E. simpl. apply Hk.
Qed.

(** [Reconnect] has no assignment of its own: a field that none of the
    methods it calls writes has the same value afterwards. *)
Lemma Reconnect_frame {B} (field : Store -> B) w err w' :
  session_keeps field ->
  Reconnect w = Done err w' ->
  field (store w') = field (store w).
Proof.
  intros (HFire & HClose & HDial & HDescribe & HSetup) E.
  unfold Reconnect in E.
  bind_inv E. Done_inv E0.
  bind_inv E. Done_inv E0.
  bind_inv E. Done_inv E0. simpl in E.
  assert (H3 : field (fst (Dial (fst (Close (Fire "RTSP reconnect" (store w))))))
               = field (store w)).
  { rewrite HDial, HClose. apply (HFire "RTSP reconnect"). }
  revert E. destruct (snd (Dial _)); intros E.
  { Done_inv E. exact H3. }
  bind_inv E. Done_inv E0. simpl in E.
  revert E. destruct (snd (Describe _)); intros E.
  { Done_inv E. simpl. by rewrite HDescribe. }
  bind_inv E. Done_inv E0.
  bind_inv E. apply (restore_frame _ _ field) in E0; [|exact HSetup].
  simpl in E0. rewrite HDescribe, H3 in E0.
  destruct a as [e|].
  { Done_inv E. exact E0. }
  bind_inv E. Done_inv E1.
  apply (restore_frame _ _ field) in E; [|exact HSetup]. congruence.
Qed.

Lemma replay_trace_setups ms tr err c :
  replay_trace ms tr err -> c ∈ tr -> exists media channel r, c = SetupMedia_call media channel r.
Proof.
  induction 1 as [|media rest channel tr err1 H1 IH|]; intros Hin.
  - by apply elem_of_nil in Hin.
  - apply elem_of_cons in Hin as [->|Hin]; eauto.
  - apply list_elem_of_singleton in Hin as ->. eauto.
Qed.

(** A trace of [Reconnect] in which Describe failed holds no SETUP, and
    the result is the error of Describe. *)
Lemma reconnect_trace_Describe ms tr err e :
  reconnect_trace ms tr err -> Describe_call (Some e) ∈ tr ->
  err = Some e /\ forall media channel r, SetupMedia_call media channel r ∉ tr.
Proof.
  intros Htr Hin. destruct Htr as [rc e'|rc e'|rc tr err Hrep].
  - repeat (apply elem_of_cons in Hin as [Hin|Hin]; [discriminate|]).
    by apply elem_of_nil in Hin.
  - repeat (apply elem_of_cons in Hin as [Hin|Hin]; [try discriminate|]).
    + injection Hin as <-. split; [reflexivity|].
      intros media channel r Hs.
      repeat (apply elem_of_cons in Hs as [Hs|Hs]; [discriminate|]).
      by apply elem_of_nil in Hs.
    + by apply elem_of_nil in Hin.
  - repeat (apply elem_of_cons in Hin as [Hin|Hin]; [discriminate|]).
    destruct (replay_trace_setups _ _ _ _ Hrep Hin) as (? & ? & ? & ?). discriminate.
Qed.

(** C6 (as amended): [Reconnect] ends, and what it does is, step by step
    and each step on the store the one before left: Fire, Close (whose
    result is not looked at), Dial, Describe, then SETUP for the stored
    media of every receiver and of every sender in registration order.
    Every call is logged with what the method returned; the first of
    Dial, Describe and the SETUPs to fail gives the result, and nothing
    is called after it.  In particular, after a failed Describe there is
    no SETUP.  [c.Receivers] and [c.Senders] are as before in every
    case, and so is every field that the methods called do not write:
    [Reconnect] has no assignment of its own, and the state afterwards
    is the one these methods left.  The methods called are assumed not to
    write the two registries or the track objects, and every registered
    track to point to an object. *)
Theorem Reconnect_spec w :
  session_keeps Receivers -> session_keeps Senders ->
  session_keeps receivers -> session_keeps senders ->
  allocated (receivers (store w)) (Receivers (store w)) ->
  allocated (senders (store w)) (Senders (store w)) ->
  exists err c' tr,
    Reconnect w = Done err {| store := c'; calls := calls w ++ tr |}
    /\ reconnect_steps
         (medias_of (receivers (store w)) Media (Receivers (store w))
            ++ medias_of (senders (store w)) Sender_Media (Senders (store w)))
         (store w) tr c' err
    /\ (forall e, Describe_call (Some e) ∈ tr ->
          err = Some e /\ forall media channel r, SetupMedia_call media channel r ∉ tr)
    /\ Receivers c' = Receivers (store w)
    /\ Senders c' = Senders (store w)
    /\ (forall B (field : Store -> B), session_keeps field -> field c' = field (store w)).
Proof.
  intros HReceivers HSenders Hreceivers Hsenders Hra Hsa.
  assert (Hmain : exists err c' tr,
    Reconnect w = Done err {| store := c'; calls := calls w ++ tr |}
    /\ reconnect_steps
         (medias_of (receivers (store w)) Media (Receivers (store w))
            ++ medias_of (senders (store w)) Sender_Media (Senders (store w)))
         (store w) tr c' err).
  { pose (c1 := Fire "RTSP reconnect" (store w)).
    destruct (Close c1) as [c2 rc] eqn:EClose.
    destruct (Dial c2) as [c3 rd] eqn:EDial.
    destruct (Describe c3) as [c4 rde] eqn:EDescribe.
    assert (Hpre : forall B (field : Store -> B), session_keeps field ->
              field c4 = field (store w)).
    { intros B field (HF & HC & HD & HDe & _).
      specialize (HDe c3). rewrite EDescribe in HDe.
      specialize (HD c2). rewrite EDial in HD.
      specialize (HC c1). rewrite EClose in HC.
      specialize (HF "RTSP reconnect" (store w)).
      simpl in *. unfold c1 in *. congruence. }
    unfold Reconnect.
    unfold bind at 1. unfold call at 1. cbv beta zeta. cbn [store calls fst snd].
    unfold bind at 1. unfold call at 1. cbv beta zeta. cbn [store calls fst snd].
    fold c1. rewrite EClose. cbn [fst snd].
    unfold bind at 1. unfold call at 1. cbv beta zeta. cbn [store calls fst snd].
    rewrite EDial. cbn [fst snd].
    destruct rd as [e|].
    { eexists _, _, _. split; [unfold ret; by rewrite <- !app_assoc|].
      by apply reconnect_steps_Dial with (c2 := c2). }
    unfold bind at 1. unfold call at 1. cbv beta zeta. cbn [store calls fst snd].
    rewrite EDescribe. cbn [fst snd].
    destruct rde as [e|].
    { eexists _, _, _. split; [unfold ret; by rewrite <- !app_assoc|].
      by apply reconnect_steps_Describe with (c2 := c2) (c3 := c3). }
    unfold bind at 1. unfold read at 1. cbn [store calls fst snd].
    set (w4 := {| store := c4; calls := _ |}).
    pose proof (Hpre _ Receivers HReceivers) as HR4.
    pose proof (Hpre _ receivers Hreceivers) as Hr4.
    pose proof (Hpre _ Senders HSenders) as HS4.
    pose proof (Hpre _ senders Hsenders) as Hs4.
    destruct (restore_steps receivers Media (Receivers c4) w4)
      as (err1 & c5 & tr1 & E1 & Ht1).
    { apply Hreceivers. }
    { simpl. by rewrite HR4, Hr4. }
    simpl in Ht1. rewrite HR4, Hr4 in Ht1.
    rewrite (bind_Done _ _ _ _ _ E1).
    destruct err1 as [e|].
    { eexists _, _, _. split; [unfold ret; cbn [calls w4]; by rewrite <- !app_assoc|].
      apply reconnect_steps_replay with (c2 := c2) (c3 := c3) (c4 := c4); try assumption.
      by apply replay_steps_failed. }
    unfold bind at 1. unfold read at 1. cbn [store].
    assert (HS5 : Senders c5 = Senders (store w)).
    { rewrite <- HS4.
      apply (restore_frame receivers Media Senders _ _ _ _ (proj2 (proj2 (proj2 (proj2 HSenders)))) E1). }
    assert (Hs5 : senders c5 = senders (store w)).
    { rewrite <- Hs4.
      apply (restore_frame receivers Media senders _ _ _ _ (proj2 (proj2 (proj2 (proj2 Hsenders)))) E1). }
    destruct (restore_steps senders Sender_Media (Senders c5)
                {| store := c5; calls := calls w4 ++ tr1 |})
      as (err2 & c6 & tr2 & E2 & Ht2).
    { apply Hsenders. }
    { cbn [store]. by rewrite HS5, Hs5. }
    cbn [store calls] in E2, Ht2. rewrite HS5, Hs5 in Ht2.
    exists err2, c6, (Fire_call "RTSP reconnect" :: Close_call rc
                        :: Dial_call None :: Describe_call None :: tr1 ++ tr2).
    split.
    { rewrite E2. cbn [calls w4]. by rewrite <- !app_assoc. }
    apply reconnect_steps_replay with (c2 := c2) (c3 := c3) (c4 := c4); try assumption.
    by apply replay_steps_app with (c1 := c5). }
  destruct Hmain as (err & c' & tr & E & Htr).
  exists err, c', tr. split; [exact E|]. split; [exact Htr|].
  split.
  { intros e. eapply reconnect_trace_Describe.
    apply reconnect_steps_trace with (c := store w) (c' := c'). exact Htr. }
  split; [apply (Reconnect_frame Receivers _ _ _ HReceivers E)|].
  split; [apply (Reconnect_frame Senders _ _ _ HSenders E)|].
  intros B field Hk. apply (Reconnect_frame field _ _ _ Hk E).
Qed.

End ReconnectProperties.

(** ** GetTrack *)

Section GetTrackProperties.
Context `{Methods}.

Lemma insert_at_end {A} (l : list A) (x y : A) : <[length l := x]> (l ++ [y]) = l ++ [x].
Proof. induction l as [|a l IH]; simpl; [reflexivity | by rewrite IH]. Qed.

Lemma allocate_assign {A} media codec channel (k : ptr -> M A) w :
  (let* track := NewReceiver media codec in
   assign_ID track channel ;; k track) w
  = k (length (receivers (store w)))
      {| store := with_unregistered (store w) media codec channel; calls := calls w |}.
Proof.
  unfold bind, NewReceiver, assign_ID. cbn [store calls receivers set_receivers].
  rewrite lookup_app_r by lia. rewrite Nat.sub_diag. cbn [lookup list_lookup].
  unfold with_unregistered, set_receivers. cbn.
  rewrite insert_at_end. reflexivity.
Qed.

(** The tail of [GetTrack] on a recvonly media: allocate, register. *)
Lemma register_recvonly media codec channel md w :
  medias (store w) !! media = Some md -> Direction md = DirectionRecvonly ->
  register media codec channel w
  = Done (Some (length (receivers (store w))), None)
         {| store := with_receiver (store w) media codec channel; calls := calls w |}.
Proof.
  intros Hm Hd. unfold register.
  rewrite (bind_Done _ _ _ _ _ (deref_Done medias Direction media md w Hm)).
  rewrite Hd. rewrite decide_True by reflexivity.
  rewrite allocate_assign. reflexivity.
Qed.

(** The tail of [GetTrack] on any other media: the explicit error. *)
Lemma register_other media codec channel md w :
  medias (store w) !! media = Some md -> Direction md <> DirectionRecvonly ->
  register media codec channel w
  = Done (None, Some (errors_New
            ("rtsp: GetTrack internal logic error for mode/direction: "
               +:+ Mode_String (mode (store w)) +:+ "/" +:+ Direction md))) w.
Proof.
  intros Hm Hd. unfold register.
  rewrite (bind_Done _ _ _ _ _ (deref_Done medias Direction media md w Hm)).
  rewrite decide_False by exact Hd. reflexivity.
Qed.

(** C3 (as amended): on a PassiveConsumer connection a request for a
    media that is not recvonly fails with the "internal logic error"
    of the guard after the switch: no track is returned, nothing is
    allocated or registered, no method is called, the state is as
    before. *)
Theorem GetTrack_PassiveConsumer_not_recvonly w media codec md :
  mode (store w) = ModePassiveConsumer ->
  medias (store w) !! media = Some md ->
  Direction md <> DirectionRecvonly ->
  GetTrack media codec w
  = Done (None, Some (errors_New
            ("rtsp: GetTrack internal logic error for mode/direction: "
               +:+ Mode_String ModePassiveConsumer +:+ "/" +:+ Direction md))) w.
Proof.
  intros Hmode Hm Hd. unfold GetTrack.
  rewrite (bind_Done _ _ _ _ _ (deref_Done medias Direction media md w Hm)).
  rewrite decide_False by exact Hd.
  unfold bind at 1. unfold ret at 1.
  unfold bind at 1. unfold read at 1. rewrite Hmode.
  rewrite (bind_Done _ _ _ _ _ (deref_Done medias Direction media md w Hm)).
  rewrite decide_False by exact Hd.
  unfold bind at 1. unfold bind at 1. unfold read at 1. unfold ret at 1.
  rewrite (register_other _ _ _ md) by assumption. by rewrite Hmode.
Qed.

(** *** The scan of the cache *)

Lemma cached_skip media codec t rest w :
  incompatible (store w) media codec t ->
  cached media codec (t :: rest) w = cached media codec rest w.
Proof.
  intros (r & Hr & Hno). simpl.
  rewrite (bind_Done _ _ _ _ _ (deref_Done receivers Media t r w Hr)).
  destruct (decide (Media r = media)) as [Hm|]; [|reflexivity].
  rewrite (bind_Done _ _ _ _ _ (deref_Done receivers Codec_ t r w Hr)).
  destruct (Match (Codec_ r) codec) eqn:Hk; [|reflexivity].
  exfalso. by apply Hno.
Qed.

Lemma cached_take media codec t rest w :
  compatible (store w) media codec t ->
  cached media codec (t :: rest) w = Done (Some t) w.
Proof.
  intros (r & Hr & Hm & Hk). simpl.
  rewrite (bind_Done _ _ _ _ _ (deref_Done receivers Media t r w Hr)).
  rewrite decide_True by exact Hm.
  rewrite (bind_Done _ _ _ _ _ (deref_Done receivers Codec_ t r w Hr)).
  rewrite Hk. reflexivity.
Qed.

Lemma cached_hit media codec t w :
  cache_entry (store w) media codec t ->
  cached media codec (Receivers (store w)) w = Done (Some t) w.
Proof.
  intros (before & after & -> & Hc & Hb).
  induction before as [|u before IH]; simpl app.
  - by apply cached_take.
  - rewrite cached_skip by (apply Hb; by left).
    apply IH. intros v Hv. apply Hb. by right.
Qed.

Lemma cached_miss media codec tracks w :
  (forall u, u ∈ tracks -> incompatible (store w) media codec u) ->
  cached media codec tracks w = Done None w.
Proof.
  induction tracks as [|u tracks IH]; intros Hno; [reflexivity|].
  rewrite cached_skip by (apply Hno; by left).
  apply IH. intros v Hv. apply Hno. by right.
Qed.

(** What a scan that ended says about the registry. *)
Lemma cached_inv media codec tracks w r w' :
  cached media codec tracks w = Done r w' ->
  w' = w /\
  match r with
  | Some t => exists before after,
      tracks = before ++ t :: after
      /\ compatible (store w) media codec t
      /\ forall u, u ∈ before -> incompatible (store w) media codec u
  | None => forall u, u ∈ tracks -> incompatible (store w) media codec u
  end.
Proof.
  revert r. induction tracks as [|u tracks IH]; intros r E.
  - Done_inv E. split; [reflexivity|]. intros u Hu. by apply elem_of_nil in Hu.
  - simpl in E. bind_inv E. apply deref_inv in E0 as (-> & o & Ho & ->).
    assert (Hskip : ~ (Media o = media /\ Match (Codec_ o) codec = true) ->
                    cached media codec tracks w = Done r w' ->
                    w' = w /\
                    match r with
                    | Some t => exists before after,
                        u :: tracks = before ++ t :: after
                        /\ compatible (store w) media codec t
                        /\ forall v, v ∈ before -> incompatible (store w) media codec v
                    | None => forall v, v ∈ u :: tracks -> incompatible (store w) media codec v
                    end).
    { intros Hno E'. apply IH in E' as [-> Hr]. split; [reflexivity|].
      assert (Hu : incompatible (store w) media codec u) by (exists o; done).
      destruct r as [t|].
      - destruct Hr as (before & after & -> & Hc & Hb).
        exists (u :: before), after. split; [reflexivity|]. split; [exact Hc|].
        intros v Hv. apply elem_of_cons in Hv as [->|Hv]; auto.
      - intros v Hv. apply elem_of_cons in Hv as [->|Hv]; auto. }
    destruct (decide (Media o = media)) as [Hm|Hm]; [|apply Hskip; [tauto | exact E]].
    bind_inv E. apply deref_inv in E0 as (-> & o' & Ho' & ->).
    assert (o' = o) by congruence. subst o'.
    destruct (Match (Codec_ o) codec) eqn:Hk; [|apply Hskip; [|exact E]].
    + Done_inv E. split; [reflexivity|].
      exists [], tracks. split; [reflexivity|]. split; [by exists o|].
      intros v Hv. by apply elem_of_nil in Hv.
    + intros [_ ?]. congruence.
Qed.

(** The head of [GetTrack] on a recvonly media that is not cached: the
    switch on the mode is reached with the world as it was. *)
Lemma GetTrack_uncached media codec md w :
  medias (store w) !! media = Some md -> Direction md = DirectionRecvonly ->
  not_cached (store w) media codec ->
  GetTrack media codec w
  = match mode (store w) with
    | ModeActiveProducer =>
        (let* err := (match state (store w) with StatePlay => Reconnect | _ => ret None end) in
         match err with
         | Some e => ret (None, Some e)
         | None =>
             let* r := call (SetupMedia media)
                            (fun r => SetupMedia_call media (fst r) (snd r)) in
             match snd r with
             | Some e => ret (None, Some e)
             | None =>
                 modify (set_state StateSetup) ;;
                 let* d := deref medias media Direction in
                 if decide (d = DirectionSendonly) then
                   let* newTrack := NewReceiver media codec in
                   assign_ID newTrack (fst r) ;;
                   ret (Some newTrack, None)
                 else register media codec (fst r)
             end
         end) w
    | ModePassiveConsumer =>
        register media codec (byte_of_int (Z.of_nat (length (Receivers (store w))) * 2)) w
    | ModePassiveProducer =>
        Done (None, Some (errors_New ("rtsp: wrong mode for GetTrack: "
                                        +:+ Mode_String ModePassiveProducer))) w
    end.
Proof.
  intros Hm Hd Hno. unfold GetTrack.
  rewrite (bind_Done _ _ _ _ _ (deref_Done medias Direction media md w Hm)).
  rewrite Hd. rewrite decide_True by reflexivity.
  unfold bind at 1. unfold bind at 1. unfold read at 1.
  rewrite (cached_miss _ _ _ _ Hno).
  unfold bind at 1. unfold read at 1.
  destruct (mode (store w)); [| |reflexivity].
  - unfold bind at 1. unfold read at 1. reflexivity.
  - rewrite (bind_Done _ _ _ _ _ (deref_Done medias Direction media md w Hm)).
    rewrite Hd. rewrite decide_True by reflexivity.
    unfold bind at 1. unfold bind at 1. unfold read at 1. unfold ret at 1. reflexivity.
Qed.

Lemma byte_of_int_double (n : nat) :
  let channel := byte_of_int (Z.of_nat n * 2) in
  0 <= channel < 256
  /\ ((n < 128)%nat -> channel = 2 * Z.of_nat n)
  /\ ((128 <= n)%nat -> channel < 2 * Z.of_nat n)
  /\ byte_of_int (Z.of_nat (n + 128) * 2) = channel
  /\ byte_mul (byte_of_int (Z.of_nat n)) 2 = channel.
Proof.
  unfold byte_of_int, byte_mul. cbv zeta.
  split; [apply Z.mod_pos_bound; lia|].
  split; [intros Hn; rewrite Z.mod_small; lia|].
  split.
  { intros Hn. pose proof (Z.mod_pos_bound (Z.of_nat n * 2) 256). lia. }
  split.
  { replace (Z.of_nat (n + 128) * 2) with (Z.of_nat n * 2 + 1 * 256) by lia.
    apply Z.mod_add. lia. }
  rewrite Z.mul_mod_idemp_l by lia. reflexivity.
Qed.

(** A scan that finds nothing shows that nothing is cached. *)
Lemma not_cached_by_scan media codec w w' :
  cached media codec (Receivers (store w)) w = Done None w' ->
  not_cached (store w) media codec.
Proof. intros E. by apply cached_inv in E as [_ Hno]. Qed.

(** A recvonly request that is not cached, on a PassiveConsumer
    connection. *)
Lemma GetTrack_PassiveConsumer_uncached w media codec md :
  mode (store w) = ModePassiveConsumer ->
  medias (store w) !! media = Some md -> Direction md = DirectionRecvonly ->
  not_cached (store w) media codec ->
  GetTrack media codec w
  = Done (Some (length (receivers (store w))), None)
         {| store := with_receiver (store w) media codec
                       (byte_of_int (Z.of_nat (length (Receivers (store w))) * 2));
            calls := calls w |}.
Proof.
  intros Hmode Hm Hd Hno.
  rewrite (GetTrack_uncached _ _ md) by assumption. rewrite Hmode.
  by apply register_recvonly with (md := md).
Qed.

(** C9 (as amended): on a PassiveConsumer connection a recvonly request
    that is not cached succeeds without calling any method; it returns
    a new object, appended to [c.Receivers], whose channel is twice the
    number of receivers registered before, reduced modulo 256; that is
    exactly twice that number (so the N-th track, counted from 0, gets
    channel 2N) as long as fewer than 128 are registered. *)
Theorem GetTrack_PassiveConsumer_recvonly w media codec md :
  mode (store w) = ModePassiveConsumer ->
  medias (store w) !! media = Some md -> Direction md = DirectionRecvonly ->
  not_cached (store w) media codec ->
  let n := length (Receivers (store w)) in
  let t := length (receivers (store w)) in
  exists w',
    GetTrack media codec w = Done (Some t, None) w'
    /\ calls w' = calls w
    /\ Receivers (store w') = Receivers (store w) ++ [t]
    /\ Senders (store w') = Senders (store w)
    /\ state (store w') = state (store w)
    /\ receivers (store w')
       = receivers (store w)
           ++ [ {| Media := media; Codec_ := codec; ID := (2 * Z.of_nat n) mod 256 |} ]
    /\ ((n < 128)%nat -> (2 * Z.of_nat n) mod 256 = 2 * Z.of_nat n).
Proof.
  intros Hmode Hm Hd Hno n t.
  eexists. split; [by apply GetTrack_PassiveConsumer_uncached with (md := md)|].
  cbn. unfold byte_of_int. rewrite (Z.mul_comm (Z.of_nat _) 2).
  repeat split. intros Hn. apply Z.mod_small. lia.
Qed.

(** C10: the channel that a PassiveConsumer connection gives to a new
    recvonly track is [byte(len(c.Receivers) * 2)], a byte: with [n]
    receivers registered it is [2n mod 256], which is [2n] exactly when
    [n < 128]; from 128 receivers on it is smaller than [2n] (0 for
    [n = 128]) and equal to the channel given 128 tracks earlier, so
    that if the entry at position [n - 128] got its channel by the same
    rule, the new track has that entry's channel.  The formula of the
    other branch, [byte(len(c.Senders)) * 2], wraps in the same way. *)
Theorem PassiveConsumer_channel_wraps w media codec md :
  mode (store w) = ModePassiveConsumer ->
  medias (store w) !! media = Some md -> Direction md = DirectionRecvonly ->
  not_cached (store w) media codec ->
  let n := length (Receivers (store w)) in
  exists t w' r,
    GetTrack media codec w = Done (Some t, None) w'
    /\ receivers (store w') !! t = Some r
    /\ Receivers (store w') !! n = Some t
    /\ ID r = (2 * Z.of_nat n) mod 256
    /\ 0 <= ID r < 256
    /\ (ID r = 2 * Z.of_nat n <-> (n < 128)%nat)
    /\ (n = 128%nat -> ID r = 0)
    /\ (forall t0 r0,
          (128 <= n)%nat ->
          Receivers (store w') !! (n - 128)%nat = Some t0 ->
          receivers (store w') !! t0 = Some r0 ->
          ID r0 = byte_of_int (Z.of_nat (n - 128) * 2) ->
          ID r = ID r0)
    /\ byte_mul (byte_of_int (Z.of_nat (length (Senders (store w))))) 2
       = (2 * Z.of_nat (length (Senders (store w)))) mod 256.
Proof.
  intros Hmode Hm Hd Hno n.
  destruct (byte_of_int_double n) as (Hrange & Hsmall & Hlarge & _ & _).
  eexists _, _, _.
  split; [by apply GetTrack_PassiveConsumer_uncached with (md := md)|].
  cbn. fold n.
  split; [apply list_lookup_middle; reflexivity|].
  split; [apply list_lookup_middle; reflexivity|].
  assert (Hform : byte_of_int (Z.of_nat n * 2) = (2 * Z.of_nat n) mod 256).
  { unfold byte_of_int. by rewrite Z.mul_comm. }
  cbn [ID].
  split; [exact Hform|]. split; [exact Hrange|]. split.
  { split.
    - intros Heq. destruct (decide (n < 128)%nat) as [|Hge]; [assumption|].
      assert (128 <= n)%nat as Hn by lia. specialize (Hlarge Hn). lia.
    - exact Hsmall. }
  split.
  { intros ->. reflexivity. }
  split.
  { intros t0 r0 Hn _ _ ->.
    destruct (byte_of_int_double (n - 128)) as (_ & _ & _ & Hshift & _).
    rewrite <- Hshift. do 2 f_equal. lia. }
  destruct (byte_of_int_double (length (Senders (store w)))) as (_ & _ & _ & _ & Hmul).
  rewrite Hmul. unfold byte_of_int. by rewrite Z.mul_comm.
Qed.

(** C8: on an ActiveProducer connection, a request for a sendonly media
    whose SETUP succeeds (after a successful [Reconnect] when the
    connection was playing) returns a newly allocated track whose
    channel is the one SETUP returned; the state is [StateSetup], and
    [c.Receivers] and [c.Senders] are as they were before the call: the
    new track is in neither.  The methods called are assumed not to
    write the two registries or the media objects. *)
Theorem GetTrack_ActiveProducer_sendonly w media codec md w1 c2 channel :
  session_keeps Receivers -> session_keeps Senders -> session_keeps medias ->
  mode (store w) = ModeActiveProducer ->
  medias (store w) !! media = Some md -> Direction md = DirectionSendonly ->
  (state (store w) = StatePlay -> Reconnect w = Done None w1) ->
  (state (store w) <> StatePlay -> w1 = w) ->
  SetupMedia media (store w1) = (c2, (channel, None)) ->
  let t := length (receivers c2) in
  exists w',
    GetTrack media codec w = Done (Some t, None) w'
    /\ receivers c2 !! t = None
    /\ receivers (store w')
       = receivers c2 ++ [ {| Media := media; Codec_ := codec; ID := channel |} ]
    /\ state (store w') = StateSetup
    /\ Receivers (store w') = Receivers (store w)
    /\ Senders (store w') = Senders (store w)
    /\ calls w' = calls w1 ++ [SetupMedia_call media channel None].
Proof.
  intros HR HS HM Hmode Hm Hd Hplay Hother Hsetup t.
  assert (Hpre : (match state (store w) with StatePlay => Reconnect | _ => ret None end) w
                 = Done None w1).
  { destruct (state (store w)) eqn:Es; [rewrite Hother by discriminate; reflexivity ..|].
    by apply Hplay. }
  assert (Hsame : forall B (field : Store -> B), session_keeps field ->
                    field c2 = field (store w)).
  { intros B field Hk.
    assert (H1 : field (store w1) = field (store w)).
    { destruct (state (store w)) eqn:Es;
        [rewrite Hother by discriminate; reflexivity ..|].
      apply Reconnect_frame with (2 := Hplay eq_refl). exact Hk. }
    destruct Hk as (_ & _ & _ & _ & Hk). specialize (Hk media (store w1)).
    rewrite Hsetup in Hk. simpl in Hk. congruence. }
  exists {| store := with_unregistered (set_state StateSetup c2) media codec channel;
            calls := calls w1 ++ [SetupMedia_call media channel None] |}.
  split.
  { unfold GetTrack.
    rewrite (bind_Done _ _ _ _ _ (deref_Done medias Direction media md w Hm)).
    rewrite Hd. rewrite decide_False by discriminate.
    unfold bind at 1. unfold ret at 1.
    unfold bind at 1. unfold read at 1. rewrite Hmode.
    unfold bind at 1. unfold read at 1.
    rewrite (bind_Done _ _ _ _ _ Hpre).
    unfold bind at 1. unfold call at 1. rewrite Hsetup. cbn [fst snd].
    unfold bind at 1. unfold modify at 1. cbn [store calls].
    erewrite bind_Done; cycle 1.
    { apply deref_Done with (o := md). cbn. by rewrite (Hsame _ medias HM). }
    rewrite Hd. rewrite decide_True by reflexivity.
    rewrite allocate_assign. reflexivity. }
  cbn. split; [apply lookup_ge_None_2; unfold t; lia|].
  repeat split; [apply (Hsame _ Receivers HR) | apply (Hsame _ Senders HS)].
Qed.

(** *** The cache *)

(** A request that finds its cached entry returns it and does nothing
    else. *)
Lemma GetTrack_hit w media codec md t :
  medias (store w) !! media = Some md -> Direction md = DirectionRecvonly ->
  cache_entry (store w) media codec t ->
  GetTrack media codec w = Done (Some t, None) w.
Proof.
  intros Hm Hd Hc. unfold GetTrack.
  rewrite (bind_Done _ _ _ _ _ (deref_Done medias Direction media md w Hm)).
  rewrite Hd. rewrite decide_True by reflexivity.
  unfold bind at 1. unfold bind at 1. unfold read at 1.
  rewrite (cached_hit _ _ _ _ Hc). reflexivity.
Qed.

Lemma GetTrack_each_hit w media md t codecs :
  medias (store w) !! media = Some md -> Direction md = DirectionRecvonly ->
  (forall k, k ∈ codecs -> cache_entry (store w) media k t) ->
  GetTrack_each media codecs w = Done (map (fun _ => (Some t, None)) codecs) w.
Proof.
  intros Hm Hd. induction codecs as [|k ks IH]; intros Hc; [reflexivity|].
  simpl. rewrite (bind_Done _ _ _ _ _ (GetTrack_hit w media k md t Hm Hd (Hc k ltac:(by left)))).
  rewrite (bind_Done _ _ _ _ _ (IH (fun k' Hk' => Hc k' ltac:(by right)))).
  reflexivity.
Qed.

(** What a successful recvonly request did: either it found its cached
    entry and changed nothing, or nothing was cached and it appended a
    new object to a registry that the methods had left as it was. *)
Lemma GetTrack_recvonly_inv w media codec md t w1 :
  session_keeps Receivers -> session_keeps receivers -> session_keeps medias ->
  medias (store w) !! media = Some md -> Direction md = DirectionRecvonly ->
  GetTrack media codec w = Done (Some t, None) w1 ->
  (cache_entry (store w) media codec t /\ w1 = w)
  \/ (not_cached (store w) media codec /\
      exists c2 channel,
        store w1 = with_receiver c2 media codec channel
        /\ t = length (receivers c2)
        /\ Receivers c2 = Receivers (store w)
        /\ receivers c2 = receivers (store w)
        /\ medias c2 = medias (store w)).
Proof.
  intros HR Hr HM Hm Hd E.
  destruct (cached media codec (Receivers (store w)) w) as [hit w0| |] eqn:Ec.
  2,3: exfalso; revert E; unfold GetTrack;
       rewrite (bind_Done _ _ _ _ _ (deref_Done medias Direction media md w Hm));
       rewrite Hd; rewrite decide_True by reflexivity;
       unfold bind at 1; unfold bind at 1; unfold read at 1; rewrite Ec; discriminate.
  apply cached_inv in Ec as [-> Hscan]. destruct hit as [t'|].
  - left. assert (Hc : cache_entry (store w) media codec t') by exact Hscan.
    rewrite (GetTrack_hit _ _ _ md t') in E by assumption.
    injection E as -> ->. by split.
  - right. split; [exact Hscan|].
    rewrite (GetTrack_uncached _ _ md) in E by assumption.
    destruct (mode (store w)); [| |discriminate].
    + bind_inv E.
      assert (Hw0 : forall B (field : Store -> B), session_keeps field ->
                      field (store w0) = field (store w)).
      { intros B field Hk. destruct (state (store w)).
        1,2,3: Done_inv E0; reflexivity.
        by apply Reconnect_frame with (2 := E0). }
      clear E0. destruct a as [e|]; [Done_inv E|].
      bind_inv E. Done_inv E0. cbn [fst snd] in E. revert E.
      destruct (SetupMedia media (store w0)) as [c2 [channel err]] eqn:Es.
      cbn [fst snd]. destruct err as [e|]; intros E; [Done_inv E|].
      assert (Hc2 : forall B (field : Store -> B), session_keeps field ->
                      field c2 = field (store w)).
      { intros B field Hk. rewrite <- (Hw0 _ field Hk).
        destruct Hk as (_ & _ & _ & _ & Hk). specialize (Hk media (store w0)).
        by rewrite Es in Hk. }
      bind_inv E. Done_inv E0.
      bind_inv E. apply deref_inv in E0 as (-> & o & Ho & ->).
      cbn in Ho. rewrite (Hc2 _ medias HM), Hm in Ho. injection Ho as <-.
      rewrite Hd in E. rewrite decide_False in E by discriminate.
      rewrite (register_recvonly _ _ _ md) in E; [|cbn; by rewrite (Hc2 _ medias HM) | exact Hd].
      Done_inv E. exists (set_state StateSetup c2), channel.
      split; [reflexivity|]. cbn.
      split; [reflexivity|].
      split; [apply (Hc2 _ Receivers HR)|].
      split; [apply (Hc2 _ receivers Hr) | apply (Hc2 _ medias HM)].
    + rewrite (register_recvonly _ _ _ md) in E by assumption.
      Done_inv E. eexists _, _. split; [reflexivity|]. auto.
Qed.

(** An entry that is first for a request stays first when an object is
    appended to the registry; and the appended object is the entry of a
    request that nothing matched, when its own codec is compatible with
    the requested one. *)
Lemma cache_entry_appended c media codec channel :
  not_cached c media codec -> Match codec codec = true ->
  cache_entry (with_receiver c media codec channel) media codec (length (receivers c)).
Proof.
  intros Hno Hk. exists (Receivers c), []. split; [reflexivity|]. split.
  - eexists. split; [cbn; apply list_lookup_middle; reflexivity|]. cbn. auto.
  - intros u Hu. destruct (Hno u Hu) as (r & Hr & Hn).
    exists r. split; [cbn; by apply lookup_app_l_Some | exact Hn].
Qed.

Lemma not_cached_ext c c' media codec :
  Receivers c = Receivers c' -> receivers c = receivers c' ->
  not_cached c media codec -> not_cached c' media codec.
Proof.
  intros HR Hr Hno u Hu. rewrite <- HR in Hu.
  destruct (Hno u Hu) as (r & Hl & Hn). exists r. by rewrite <- Hr.
Qed.

(** Among registered receivers that all point to objects, one that is
    compatible with a request makes some receiver the entry for it. *)
Lemma first_compatible c media codec before t after :
  allocated (receivers c) before ->
  compatible c media codec t ->
  exists t' before' after',
    before ++ t :: after = before' ++ t' :: after'
    /\ compatible c media codec t'
    /\ forall u, u ∈ before' -> incompatible c media codec u.
Proof.
  intros Halloc Hc. induction before as [|u before IH]; simpl.
  - exists t, [], after. split; [reflexivity|]. split; [exact Hc|].
    intros u Hu. by apply elem_of_nil in Hu.
  - destruct (Halloc u) as [r Hr]; [by left|].
    destruct (decide (Media r = media)) as [Hm|Hm];
      [destruct (Match (Codec_ r) codec) eqn:Hk|].
    + exists u, [], (before ++ t :: after). split; [reflexivity|].
      split; [by exists r|]. intros v Hv. by apply elem_of_nil in Hv.
    + destruct IH as (t' & b' & a' & Heq & Hc' & Hb').
      { intros v Hv. apply Halloc. by right. }
      exists t', (u :: b'), a'. split; [simpl; by rewrite Heq|]. split; [exact Hc'|].
      intros v Hv. apply elem_of_cons in Hv as [->|Hv]; [|by apply Hb'].
      exists r. split; [exact Hr|]. intros [_ ?]. congruence.
    + destruct IH as (t' & b' & a' & Heq & Hc' & Hb').
      { intros v Hv. apply Halloc. by right. }
      exists t', (u :: b'), a'. split; [simpl; by rewrite Heq|]. split; [exact Hc'|].
      intros v Hv. apply elem_of_cons in Hv as [->|Hv]; [|by apply Hb'].
      exists r. split; [exact Hr|]. intros [? _]. congruence.
Qed.

(** A request whose codec is compatible with the codec of the entry of
    another request for the same media has an entry too. *)
Lemma cache_entry_compatible c media codec t k :
  cache_entry c media codec t ->
  (exists r, receivers c !! t = Some r /\ Match (Codec_ r) k = true) ->
  exists t', cache_entry c media k t'.
Proof.
  intros (before & after & HR & (r & Hr & Hm & _) & Hb) (r' & Hr' & Hk).
  assert (r' = r) by congruence. subst r'.
  destruct (first_compatible c media k before t after) as (t' & b' & a' & Heq & Hc' & Hb').
  - intros u Hu. destruct (Hb u Hu) as (o & Ho & _). by exists o.
  - by exists r.
  - exists t', b', a'. by rewrite HR, Heq.
Qed.


End GetTrackProperties.

(* ===================================================================== *)
(** * Further properties of the producer *)
(* ===================================================================== *)

(** ** Start: how a run ends *)

Section StartRuns.
Context `{Methods}.

(** One iteration of the loop that finds [StateSetup] on an
    ActiveProducer whose Play succeeds: the state becomes [StatePlay],
    Handle runs once, and the loop goes on with what Handle returned. *)
Lemma Start_loop_round fuel err w c1 c2 herr :
  state (store w) = StateSetup -> mode (store w) = ModeActiveProducer ->
  Play (store w) = (c1, None) ->
  Handle (set_state StatePlay c1) = (c2, herr) ->
  Start_loop (S fuel) err w
  = Start_loop fuel herr
      {| store := c2; calls := calls w ++ [Play_call None; Handle_call herr] |}.
Proof.
  intros Hs Hm HP HH. simpl.
  unfold bind at 1. unfold read at 1. rewrite Hs.
  unfold bind at 1. unfold bind at 1. unfold read at 1. rewrite Hm.
  unfold bind at 1. unfold call at 1. rewrite HP. cbn [fst snd].
  unfold bind at 1. unfold modify at 1. unfold ret at 1. cbn [fst snd negb store calls].
  unfold bind at 1. unfold call at 1. cbn [store calls]. rewrite HH. cbn [fst snd].
  rewrite <- app_assoc. reflexivity.
Qed.

(** X11: [Start] on an idle connection returns nil at once: neither Play nor
    Handle is called, and nothing is written. *)
Theorem Start_from_None fuel err w :
  state (store w) = StateNone ->
  Start_loop (S fuel) err w = Done None w
  /\ (mode (store w) <> ModePassiveConsumer -> Start (S fuel) w = Done None w).
Proof.
  intros E.
  assert (Hloop : Start_loop (S fuel) err w = Done None w).
  { simpl. unfold bind, read. rewrite E. reflexivity. }
  split; [exact Hloop|].
  intros Hm. rewrite Start_asserted by done.
  simpl. unfold bind, read. rewrite E. reflexivity.
Qed.

(** X12: When Play fails on an ActiveProducer in [StateSetup], [Start] returns
    the error of Play: Handle is not called and [Start] does not assign
    the state. *)
Theorem Start_Play_failed fuel w c1 e :
  state (store w) = StateSetup -> mode (store w) = ModeActiveProducer ->
  Play (store w) = (c1, Some e) ->
  Start (S fuel) w
  = Done (Some e) {| store := c1; calls := calls w ++ [Play_call (Some e)] |}.
Proof.
  intros Hs Hm HP. rewrite Start_asserted by congruence. simpl.
  unfold bind at 1. unfold read at 1. rewrite Hs.
  unfold bind at 1. unfold bind at 1. unfold read at 1. rewrite Hm.
  unfold bind at 1. unfold call at 1. rewrite HP. reflexivity.
Qed.

(** X13: After a successful Play and one Handle, the state that Handle left
    decides the result: with [StateNone], [Start] returns nil even if
    Handle returned an error; with [StatePlay] it returns what Handle
    returned; with [StateConn] it returns the "start from CONN state"
    error.  Play has been called once and Handle once. *)
Theorem Start_after_Handle fuel w c1 c2 herr :
  state (store w) = StateSetup -> mode (store w) = ModeActiveProducer ->
  Play (store w) = (c1, None) ->
  Handle (set_state StatePlay c1) = (c2, herr) ->
  let w' := {| store := c2; calls := calls w ++ [Play_call None; Handle_call herr] |} in
  (state c2 = StateNone -> Start (S (S fuel)) w = Done None w')
  /\ (state c2 = StatePlay -> Start (S (S fuel)) w = Done herr w')
  /\ (state c2 = StateConn ->
      Start (S (S fuel)) w = Done (Some (errors_New "start from CONN state")) w').
Proof.
  intros Hs Hm HP HH. cbv zeta.
  assert (Hstep : Start (S (S fuel)) w
                  = Start_loop (S fuel) herr
                      {| store := c2; calls := calls w ++ [Play_call None; Handle_call herr] |}).
  { rewrite Start_asserted by congruence. by apply Start_loop_round with (c1 := c1). }
  rewrite Hstep. repeat split; intros E.
  - simpl. unfold bind, read. cbn [store]. rewrite E. reflexivity.
  - by apply Start_loop_Play.
  - by apply Start_loop_Conn.
Qed.

(** X14: [Start] returns nil only on a connection that is idle or playing:
    never in [StateConn], never in [StateSetup]. *)
Theorem Start_nil_state fuel err w w' :
  Start_loop fuel err w = Done None w' ->
  state (store w') = StateNone \/ state (store w') = StatePlay.
Proof.
  revert err w. induction fuel as [|fuel IH]; intros err w E; [discriminate|].
  simpl in E. unfold bind, read, ret, modify, call in E.
  cbn [fst snd negb store calls] in E.
  destruct (state (store w)) eqn:Hs; cbn [fst snd negb store calls] in E.
  - injection E as <-. by left.
  - discriminate.
  - destruct (mode (store w)).
    + destruct (snd (Play (store w))); cbn [fst snd negb store calls] in E.
      * discriminate.
      * by apply IH in E.
    + discriminate.
    + cbn [fst snd negb store calls] in E. by apply IH in E.
  - injection E as -> <-. by right.
Qed.

End StartRuns.

(** ** Start: the calls of a run *)

Section StartCalls.
Context `{Methods}.

Lemma Start_loop_calls fuel err w r w' :
  keeps mode Play -> keeps mode Handle ->
  Start_loop fuel err w = Done r w' ->
  exists tr, calls w' = calls w ++ tr /\ start_trace (mode (store w)) tr.
Proof.
  intros HP HH. revert err w.
  induction fuel as [|fuel IH]; intros err w E; [discriminate|].
  assert (Hstop : forall x, Done x w = Done r w' ->
            exists tr, calls w' = calls w ++ tr /\ start_trace (mode (store w)) tr).
  { intros x [= _ <-]. exists []. rewrite app_nil_r. split; [reflexivity | apply start_returns]. }
  simpl in E. unfold bind, read, ret, modify, call in E.
  cbn [fst snd negb store calls] in E.
  destruct (state (store w)) eqn:Hs; cbn [fst snd negb store calls] in E;
    [by apply Hstop in E | by apply Hstop in E | | by apply Hstop in E].
  destruct (mode (store w)) eqn:Hm.
  - destruct (snd (Play (store w))) as [e|] eqn:HPlay; cbn [fst snd negb store calls] in E.
    + injection E as <- <-. exists [Play_call (Some e)].
      split; [reflexivity | by apply start_Play_failed].
    + apply IH in E as (tr & Hcalls & Htr). cbn [store calls] in Hcalls, Htr.
      rewrite HH in Htr. cbn [mode set_state] in Htr. rewrite HP, Hm in Htr.
      exists (Play_call None :: Handle_call (snd (Handle (set_state StatePlay (fst (Play (store w))))))
                :: tr).
      split; [by rewrite Hcalls, <- !app_assoc | by apply start_round_active].
  - cbn [fst snd negb store calls] in E. by apply Hstop in E.
  - cbn [fst snd negb store calls] in E.
    apply IH in E as (tr & Hcalls & Htr). cbn [store calls] in Hcalls, Htr.
    rewrite HH in Htr. cbn [mode set_state] in Htr. rewrite Hm in Htr.
    exists (Handle_call (snd (Handle (set_state StatePlay (store w)))) :: tr).
    split; [by rewrite Hcalls, <- !app_assoc | by apply start_round_passive].
Qed.

Lemma start_trace_passive tr :
  start_trace ModePassiveProducer tr -> forall e, Play_call e ∉ tr.
Proof.
  induction 1 as [|e Hm|herr tr Hm _ _|herr tr _ Htr IH]; intros e' Hin;
    try discriminate.
  - by apply elem_of_nil in Hin.
  - apply elem_of_cons in Hin as [?|Hin]; [discriminate | by apply (IH e')].
Qed.

(** X15: Whenever [Start] returns, the calls it has made are rounds of a
    successful Play followed by one Handle (for an ActiveProducer), or of
    Handle alone (for a PassiveProducer, which never calls Play), ended
    by nothing or by a failed Play: Handle never runs without the Play
    before it having succeeded, and nothing else is called.  Play and
    Handle are assumed not to write [c.mode]. *)
Theorem Start_calls fuel w r w' :
  keeps mode Play -> keeps mode Handle ->
  Start fuel w = Done r w' ->
  mode (store w) <> ModePassiveConsumer
  /\ exists tr,
       calls w' = calls w ++ tr
       /\ start_trace (mode (store w)) tr
       /\ (mode (store w) = ModePassiveProducer -> forall e, Play_call e ∉ tr).
Proof.
  intros HP HH E.
  assert (Hm : mode (store w) <> ModePassiveConsumer).
  { intros Hm. unfold Start, bind, read in E. rewrite Hm in E. discriminate. }
  split; [exact Hm|]. rewrite Start_asserted in E by exact Hm.
  destruct (Start_loop_calls _ _ _ _ _ HP HH E) as (tr & Hcalls & Htr).
  exists tr. split; [exact Hcalls|]. split; [exact Htr|].
  intros Hpp. rewrite Hpp in Htr. by apply start_trace_passive.
Qed.

End StartCalls.

(** ** Stop: what is left afterwards *)

Section StopRuns.
Context `{Methods}.

(** The three stages of [Stop]. *)
Lemma Stop_steps w :
  exists wr w1 rr sr,
    length rr = length (Receivers (store w))
    /\ length sr = length (Senders (store wr))
    /\ calls w1 = calls w ++ zip_with Receiver_Close_call (Receivers (store w)) rr
                          ++ zip_with Sender_Close_call (Senders (store wr)) sr
    /\ (forall A (field : Store -> A),
          (forall t, keeps field (Receiver_Close t)) -> field (store wr) = field (store w))
    /\ (forall A (field : Store -> A),
          (forall t, keeps field (Sender_Close t)) -> field (store w1) = field (store wr))
    /\ Stop w = match state (store w1) with
                | StateNone => Done None w1
                | _ => Done (snd (Close (closing_store (store w1))))
                            {| store := fst (Close (closing_store (store w1)));
                               calls := calls w1
                                          ++ [Close_call (snd (Close (closing_store (store w1))))] |}
                end.
Proof.
  destruct (close_all_spec Receiver_Close Receiver_Close_call (Receivers (store w)) w)
    as (wr & rr & Er & Hlr & Hcr & Hfr).
  destruct (close_all_spec Sender_Close Sender_Close_call (Senders (store wr)) wr)
    as (w1 & sr & Es & Hls & Hcs & Hfs).
  exists wr, w1, rr, sr. split; [exact Hlr|]. split; [exact Hls|]. split.
  { rewrite Hcs, Hcr, <- app_assoc. reflexivity. }
  split; [exact Hfr|]. split; [exact Hfs|].
  unfold Stop. unfold bind at 1. unfold read at 1.
  rewrite (bind_Done _ _ _ _ _ Er).
  unfold bind at 1. unfold read at 1.
  rewrite (bind_Done _ _ _ _ _ Es).
  unfold bind at 1. unfold read at 1.
  destruct (state (store w1)); reflexivity.
Qed.

(** X16: [Stop] empties nothing: the tracks it has closed are still
    registered, in the same order, when it returns.  The [Close]
    methods are assumed not to write the registries. *)
Theorem Stop_keeps_registries w :
  (forall t, keeps registries (Receiver_Close t)) ->
  (forall t, keeps registries (Sender_Close t)) ->
  keeps registries Close ->
  exists err w',
    Stop w = Done err w'
    /\ Receivers (store w') = Receivers (store w)
    /\ Senders (store w') = Senders (store w).
Proof.
  intros HR HS HC.
  destruct (Stop_steps w) as (wr & w1 & rr & sr & _ & _ & _ & Hfr & Hfs & HStop).
  assert (H1 : registries (store w1) = registries (store w)).
  { rewrite (Hfs _ registries HS). apply (Hfr _ registries HR). }
  assert (Hsplit : forall c, registries c = registries (store w) ->
                     Receivers c = Receivers (store w) /\ Senders c = Senders (store w)).
  { intros c [= -> ->]. by split. }
  destruct (state (store w1)); eexists _, _; (split; [exact HStop|]);
    cbn [store]; apply Hsplit; try exact H1;
    rewrite HC; exact H1.
Qed.

(** X17: [Stop] on a connection that [Stop] has just left returns nil and
    does not call the transport's [Close] again, but it calls the
    [Close] of every receiver and of every sender a second time, once
    each and in registration order, each on the store the close before
    it left, and logs what each of these calls returned.  The [Close]
    methods are assumed not to write the state or the registries. *)
Theorem Stop_twice w :
  (forall t, keeps control (Receiver_Close t)) ->
  (forall t, keeps control (Sender_Close t)) ->
  keeps control Close ->
  exists err w1,
    Stop w = Done err w1
    /\ state (store w1) = StateNone
    /\ let rs := Receivers (store w) in
       let ss := Senders (store w) in
       let rc := close_run Receiver_Close rs (store w1) in
       let sc := close_run Sender_Close ss (fst rc) in
       length (snd rc) = length rs
       /\ length (snd sc) = length ss
       /\ (forall i t, rs !! i = Some t ->
             snd rc !! i
             = Some (snd (Receiver_Close t
                            (fst (close_run Receiver_Close (take i rs) (store w1))))))
       /\ (forall i t, ss !! i = Some t ->
             snd sc !! i
             = Some (snd (Sender_Close t (fst (close_run Sender_Close (take i ss) (fst rc))))))
       /\ Stop w1
          = Done None {| store := fst sc;
                         calls := calls w1 ++ zip_with Receiver_Close_call rs (snd rc)
                                           ++ zip_with Sender_Close_call ss (snd sc) |}.
Proof.
  intros HR HS HC.
  assert (Hr : forall c tracks,
            control (fst (close_run Receiver_Close tracks c)) = control c)
    by (intros; by apply close_run_keeps).
  assert (Hs : forall c tracks,
            control (fst (close_run Sender_Close tracks c)) = control c)
    by (intros; by apply close_run_keeps).
  assert (Hfirst : exists err w1,
            Stop w = Done err w1 /\ state (store w1) = StateNone
            /\ registries (store w1) = registries (store w)).
  { pose proof (Stop_run w) as HStop. cbv zeta in HStop.
    set (c1 := fst (close_run Sender_Close _ _)) in HStop.
    assert (Hc1 : control c1 = control (store w)).
    { unfold c1. by rewrite Hs, Hr. }
    injection Hc1 as Hst HRc HSc.
    assert (Hclosed : state (fst (Close (closing_store c1))) = StateNone
                      /\ registries (fst (Close (closing_store c1))) = registries (store w)).
    { pose proof (HC (closing_store c1)) as [= H1 H2 H3].
      split; [exact H1|]. unfold registries. rewrite H2, H3. cbn. by rewrite HRc, HSc. }
    destruct (state c1) eqn:Hs1.
    - eexists _, _. split; [exact HStop|]. cbn [store]. split; [exact Hs1|].
      unfold registries. by rewrite HRc, HSc.
    - eexists _, _. split; [exact HStop|]. exact Hclosed.
    - eexists _, _. split; [exact HStop|]. exact Hclosed.
    - eexists _, _. split; [exact HStop|]. exact Hclosed. }
  destruct Hfirst as (err & w1 & E1 & Hnone & Hreg).
  exists err, w1. split; [exact E1|]. split; [exact Hnone|]. cbv zeta.
  injection Hreg as HRs HSs.
  split; [apply close_run_length|]. split; [apply close_run_length|].
  split; [intros i t Hi; by apply close_run_lookup|].
  split; [intros i t Hi; by apply close_run_lookup|].
  pose proof (Stop_run w1) as HStop. cbv zeta in HStop.
  assert (HS1 : Senders (fst (close_run Receiver_Close (Receivers (store w1)) (store w1)))
                = Senders (store w)).
  { pose proof (Hr (store w1) (Receivers (store w1))) as [= _ _ H3]. congruence. }
  assert (Hst : state (fst (close_run Sender_Close (Senders (store w))
                  (fst (close_run Receiver_Close (Receivers (store w)) (store w1)))))
                = StateNone).
  { pose proof (Hs (fst (close_run Receiver_Close (Receivers (store w)) (store w1)))
                   (Senders (store w))) as [= H1 _ _].
    pose proof (Hr (store w1) (Receivers (store w))) as [= H2 _ _]. congruence. }
  rewrite HS1, HRs in HStop. rewrite Hst in HStop. exact HStop.
Qed.

End StopRuns.

(** ** GetTrack: the paths after the cache *)

Section GetTrackPaths.
Context `{Methods}.

(** A request that the cache does not answer reaches the switch on the
    mode with the world as it was. *)
Lemma GetTrack_slow media codec md w :
  medias (store w) !! media = Some md ->
  not_served (store w) md media codec ->
  GetTrack media codec w
  = match mode (store w) with
    | ModeActiveProducer =>
        (let* err := (match state (store w) with StatePlay => Reconnect | _ => ret None end) in
         match err with
         | Some e => ret (None, Some e)
         | None =>
             let* r := call (SetupMedia media)
                            (fun r => SetupMedia_call media (fst r) (snd r)) in
             match snd r with
             | Some e => ret (None, Some e)
             | None =>
                 modify (set_state StateSetup) ;;
                 let* d := deref medias media Direction in
                 if decide (d = DirectionSendonly) then
                   let* newTrack := NewReceiver media codec in
                   assign_ID newTrack (fst r) ;;
                   ret (Some newTrack, None)
                 else register media codec (fst r)
             end
         end) w
    | ModePassiveConsumer =>
        register media codec
          (if decide (Direction md = DirectionRecvonly)
           then byte_of_int (Z.of_nat (length (Receivers (store w))) * 2)
           else byte_mul (byte_of_int (Z.of_nat (length (Senders (store w))))) 2) w
    | ModePassiveProducer =>
        Done (None, Some (errors_New ("rtsp: wrong mode for GetTrack: "
                                        +:+ Mode_String ModePassiveProducer))) w
    end.
Proof.
  intros Hm Hns. unfold GetTrack.
  rewrite (bind_Done _ _ _ _ _ (deref_Done medias Direction media md w Hm)).
  assert (Hscan : (if decide (Direction md = DirectionRecvonly)
                   then let* rs := read Receivers in cached media codec rs
                   else ret None) w = Done None w).
  { destruct (decide (Direction md = DirectionRecvonly)) as [Hd|Hd]; [|reflexivity].
    unfold bind at 1. unfold read at 1. apply cached_miss. by apply Hns. }
  rewrite (bind_Done _ _ _ _ _ Hscan).
  unfold bind at 1. unfold read at 1.
  destruct (mode (store w)); [| |reflexivity].
  - unfold bind at 1. unfold read at 1. reflexivity.
  - rewrite (bind_Done _ _ _ _ _ (deref_Done medias Direction media md w Hm)).
    destruct (decide (Direction md = DirectionRecvonly));
      unfold bind at 1; unfold bind at 1; unfold read at 1; unfold ret at 1; reflexivity.
Qed.

(** The ActiveProducer path up to and including the SETUP of the
    requested media. *)
Lemma GetTrack_ActiveProducer_setup media codec md w w1 c2 channel err :
  mode (store w) = ModeActiveProducer ->
  medias (store w) !! media = Some md ->
  not_served (store w) md media codec ->
  (state (store w) = StatePlay -> Reconnect w = Done None w1) ->
  (state (store w) <> StatePlay -> w1 = w) ->
  SetupMedia media (store w1) = (c2, (channel, err)) ->
  GetTrack media codec w
  = match err with
    | Some e => ret (None, Some e)
    | None =>
        modify (set_state StateSetup) ;;
        let* d := deref medias media Direction in
        if decide (d = DirectionSendonly) then
          let* newTrack := NewReceiver media codec in
          assign_ID newTrack channel ;;
          ret (Some newTrack, None)
        else register media codec channel
    end {| store := c2; calls := calls w1 ++ [SetupMedia_call media channel err] |}.
Proof.
  intros Hmode Hm Hns Hplay Hother Hsetup.
  assert (Hpre : (match state (store w) with StatePlay => Reconnect | _ => ret None end) w
                 = Done None w1).
  { destruct (state (store w)) eqn:Es; [rewrite Hother by discriminate; reflexivity ..|].
    by apply Hplay. }
  rewrite (GetTrack_slow _ _ md) by assumption. rewrite Hmode.
  rewrite (bind_Done _ _ _ _ _ Hpre).
  unfold bind at 1. unfold call at 1. rewrite Hsetup. cbn [fst snd]. reflexivity.
Qed.

(** What the session methods and an assignment of the state leave of a
    field they do not write. *)
Lemma session_reaches w w1 c2 media r :
  (state (store w) = StatePlay -> exists err, Reconnect w = Done err w1) ->
  (state (store w) <> StatePlay -> w1 = w) ->
  SetupMedia media (store w1) = (c2, r) ->
  reached (store w) (store w1) /\ reached (store w) c2.
Proof.
  intros Hplay Hother Hsetup.
  assert (H1 : reached (store w) (store w1)).
  { intros B field Hk _. destruct (state (store w)) eqn:Es;
      [rewrite Hother by discriminate; reflexivity ..|].
    destruct (Hplay eq_refl) as [err E]. by apply Reconnect_frame with (2 := E). }
  split; [exact H1|].
  intros B field Hk Hs. rewrite <- (H1 B field Hk Hs).
  destruct Hk as (_ & _ & _ & _ & Hk). specialize (Hk media (store w1)).
  by rewrite Hsetup in Hk.
Qed.

Lemma reached_field {B} (field : Store -> B) c c2 :
  reached c c2 -> session_keeps field ->
  (forall s c', field (set_state s c') = field c') ->
  field c2 = field c.
Proof. intros Hr Hk Hs. by apply Hr. Qed.

(** X1: An ActiveProducer request for a recvonly media that is not cached,
    when the SETUP succeeds (after a successful [Reconnect] if the
    connection was playing): the new track has the channel that SETUP
    returned, it is appended to [c.Receivers], the state is
    [StateSetup], and [c.Senders] is as before. *)
Theorem GetTrack_ActiveProducer_recvonly w media codec md w1 c2 channel :
  session_keeps Receivers -> session_keeps Senders -> session_keeps medias ->
  mode (store w) = ModeActiveProducer ->
  medias (store w) !! media = Some md -> Direction md = DirectionRecvonly ->
  not_cached (store w) media codec ->
  (state (store w) = StatePlay -> Reconnect w = Done None w1) ->
  (state (store w) <> StatePlay -> w1 = w) ->
  SetupMedia media (store w1) = (c2, (channel, None)) ->
  let t := length (receivers c2) in
  exists w',
    GetTrack media codec w = Done (Some t, None) w'
    /\ receivers (store w')
       = receivers c2 ++ [ {| Media := media; Codec_ := codec; ID := channel |} ]
    /\ state (store w') = StateSetup
    /\ Receivers (store w') = Receivers (store w) ++ [t]
    /\ Senders (store w') = Senders (store w)
    /\ calls w' = calls w1 ++ [SetupMedia_call media channel None].
Proof.
  intros HR HS HM Hmode Hm Hd Hno Hplay Hother Hsetup t.
  destruct (session_reaches w w1 c2 media (channel, None)) as [_ Hc2];
    [intros Es; eexists; by apply Hplay | exact Hother | exact Hsetup |].
  assert (Hm2 : medias c2 !! media = Some md).
  { by rewrite (reached_field medias _ _ Hc2 HM). }
  exists {| store := with_receiver (set_state StateSetup c2) media codec channel;
            calls := calls w1 ++ [SetupMedia_call media channel None] |}.
  split.
  { rewrite (GetTrack_ActiveProducer_setup _ _ md w w1 c2 channel None)
      by (try assumption; intros _; exact Hno).
    unfold bind at 1. unfold modify at 1. cbn [store calls].
    erewrite bind_Done; [|by apply deref_Done with (o := md)].
    rewrite Hd. rewrite decide_False by discriminate.
    by apply register_recvonly with (md := md). }
  cbn. repeat split.
  - by rewrite (reached_field Receivers _ _ Hc2 HR).
  - by rewrite (reached_field Senders _ _ Hc2 HS).
Qed.

(** X2: An ActiveProducer request on a playing connection whose [Reconnect]
    fails returns the error of [Reconnect]: no SETUP is made for the
    requested media, the state is not assigned and nothing is allocated
    or registered (the world is the one [Reconnect] left). *)
Theorem GetTrack_Reconnect_failed w media codec md w1 e :
  mode (store w) = ModeActiveProducer -> state (store w) = StatePlay ->
  medias (store w) !! media = Some md ->
  not_served (store w) md media codec ->
  Reconnect w = Done (Some e) w1 ->
  GetTrack media codec w = Done (None, Some e) w1.
Proof.
  intros Hmode Hs Hm Hns HR.
  rewrite (GetTrack_slow _ _ md) by assumption. rewrite Hmode, Hs.
  rewrite (bind_Done _ _ _ _ _ HR). reflexivity.
Qed.

(** X3: An ActiveProducer request whose SETUP fails returns the error of
    SETUP: [GetTrack] does not assign the state, and nothing is
    allocated or registered. *)
Theorem GetTrack_SetupMedia_failed w media codec md w1 c2 channel e :
  mode (store w) = ModeActiveProducer ->
  medias (store w) !! media = Some md ->
  not_served (store w) md media codec ->
  (state (store w) = StatePlay -> Reconnect w = Done None w1) ->
  (state (store w) <> StatePlay -> w1 = w) ->
  SetupMedia media (store w1) = (c2, (channel, Some e)) ->
  GetTrack media codec w
  = Done (None, Some e)
         {| store := c2; calls := calls w1 ++ [SetupMedia_call media channel (Some e)] |}.
Proof.
  intros Hmode Hm Hns Hplay Hother Hsetup.
  by rewrite (GetTrack_ActiveProducer_setup _ _ md w w1 c2 channel (Some e)).
Qed.

(** X4: An ActiveProducer request for a media that is neither recvonly nor
    sendonly fails with the "internal logic error", but only after the
    SETUP of that media has been made and the state has been set to
    [StateSetup]; nothing is allocated or registered. *)
Theorem GetTrack_ActiveProducer_other_direction w media codec md w1 c2 channel :
  session_keeps medias ->
  mode (store w) = ModeActiveProducer ->
  medias (store w) !! media = Some md ->
  Direction md <> DirectionRecvonly -> Direction md <> DirectionSendonly ->
  (state (store w) = StatePlay -> Reconnect w = Done None w1) ->
  (state (store w) <> StatePlay -> w1 = w) ->
  SetupMedia media (store w1) = (c2, (channel, None)) ->
  GetTrack media codec w
  = Done (None, Some (errors_New
            ("rtsp: GetTrack internal logic error for mode/direction: "
               +:+ Mode_String (mode c2) +:+ "/" +:+ Direction md)))
         {| store := set_state StateSetup c2;
            calls := calls w1 ++ [SetupMedia_call media channel None] |}.
Proof.
  intros HM Hmode Hm Hnr Hnsd Hplay Hother Hsetup.
  destruct (session_reaches w w1 c2 media (channel, None)) as [_ Hc2];
    [intros Es; eexists; by apply Hplay | exact Hother | exact Hsetup |].
  assert (Hm2 : medias c2 !! media = Some md).
  { by rewrite (reached_field medias _ _ Hc2 HM). }
  rewrite (GetTrack_ActiveProducer_setup _ _ md w w1 c2 channel None)
    by (try assumption; intros Hd; by destruct Hnr).
  unfold bind at 1. unfold modify at 1. cbn [store calls].
  erewrite bind_Done; [|by apply deref_Done with (o := md)].
  rewrite decide_False by exact Hnsd.
  by rewrite (register_other _ _ _ md).
Qed.

(** X5: On a PassiveProducer connection the cache is still consulted: a
    recvonly request with a cached entry gets it; every other request
    fails with the "wrong mode" error, and nothing is called or
    written. *)
Theorem GetTrack_PassiveProducer w media codec md :
  mode (store w) = ModePassiveProducer ->
  medias (store w) !! media = Some md ->
  (forall t, Direction md = DirectionRecvonly -> cache_entry (store w) media codec t ->
     GetTrack media codec w = Done (Some t, None) w)
  /\ (not_served (store w) md media codec ->
      GetTrack media codec w
      = Done (None, Some (errors_New ("rtsp: wrong mode for GetTrack: "
                                        +:+ Mode_String ModePassiveProducer))) w).
Proof.
  intros Hmode Hm. split.
  - intros t Hd Hc. by apply GetTrack_hit with (md := md).
  - intros Hns. rewrite (GetTrack_slow _ _ md) by assumption. by rewrite Hmode.
Qed.

End GetTrackPaths.

(** ** GetTrack: what every return has in common *)

Section GetTrackReturns.
Context `{Methods}.

Lemma reached_refl c : reached c c.
Proof. intros B field _ _. reflexivity. Qed.

Lemma reached_set_state c c2 s : reached c c2 -> reached c (set_state s c2).
Proof. intros Hr B field Hk Hs. rewrite Hs. by apply Hr. Qed.

(** The tail of [GetTrack], whatever the direction. *)
Lemma register_inv media codec channel w r w' :
  register media codec channel w = Done r w' ->
  (exists e, r = (None, Some e) /\ w' = w)
  \/ (r = (Some (length (receivers (store w))), None)
      /\ store w' = with_receiver (store w) media codec channel).
Proof.
  intros E. unfold register in E. bind_inv E.
  apply deref_inv in E0 as (-> & md & Hm & ->).
  destruct (decide (Direction md = DirectionRecvonly)) as [Hd|Hd].
  - rewrite allocate_assign in E. unfold bind, read, modify, ret in E.
    cbn [store calls] in E. injection E as <- <-. right. by split.
  - unfold bind, read, ret in E. injection E as <- <-. left. eauto.
Qed.

(** Every way in which [GetTrack] returns. *)
Lemma GetTrack_inv media codec w r w' :
  GetTrack media codec w = Done r w' ->
  exists md,
    medias (store w) !! media = Some md
    /\ ((exists t,
           Direction md = DirectionRecvonly /\ cache_entry (store w) media codec t
           /\ r = (Some t, None) /\ w' = w)
        \/ (not_served (store w) md media codec
            /\ exists c2,
                 reached (store w) c2
                 /\ ((exists e, r = (None, Some e) /\ store w' = c2)
                     \/ (exists channel,
                           r = (Some (length (receivers c2)), None)
                           /\ store w' = with_receiver c2 media codec channel)
                     \/ (exists channel,
                           r = (Some (length (receivers c2)), None)
                           /\ store w' = with_unregistered c2 media codec channel)))).
Proof.
  intros E.
  destruct (medias (store w) !! media) as [md|] eqn:Hm; cycle 1.
  { unfold GetTrack, bind, deref in E. rewrite Hm in E. discriminate. }
  exists md. split; [reflexivity|].
  assert (Hcases : (exists t, Direction md = DirectionRecvonly
                              /\ cache_entry (store w) media codec t
                              /\ GetTrack media codec w = Done (Some t, None) w)
                   \/ not_served (store w) md media codec).
  { destruct (decide (Direction md = DirectionRecvonly)) as [Hd|Hd];
      [|right; intros ?; contradiction].
    destruct (cached media codec (Receivers (store w)) w) as [hit w0| |] eqn:Ec.
    2,3: exfalso; revert E; unfold GetTrack;
         rewrite (bind_Done _ _ _ _ _ (deref_Done medias Direction media md w Hm));
         rewrite Hd; rewrite decide_True by reflexivity;
         unfold bind at 1; unfold bind at 1; unfold read at 1; rewrite Ec; discriminate.
    apply cached_inv in Ec as [-> Hscan]. destruct hit as [t|].
    - left. exists t. split; [exact Hd|]. split; [exact Hscan|].
      by apply GetTrack_hit with (md := md).
    - right. intros _. exact Hscan. }
  destruct Hcases as [(t & Hd & Hc & Ehit) | Hns].
  { left. exists t. rewrite Ehit in E. injection E as <- <-. auto. }
  right. split; [exact Hns|].
  rewrite (GetTrack_slow _ _ md) in E by assumption.
  destruct (mode (store w)) eqn:Hmode.
  - bind_inv E.
    assert (Hw0 : reached (store w) (store w0)).
    { intros B field Hk _. destruct (state (store w)).
      1,2,3: Done_inv E0; reflexivity.
      by apply Reconnect_frame with (2 := E0). }
    clear E0. destruct a as [e|].
    { Done_inv E. exists (store w'). split; [exact Hw0|]. left. eauto. }
    bind_inv E. Done_inv E0. cbn [fst snd] in E. revert E.
    destruct (SetupMedia media (store w0)) as [c2 [channel err]] eqn:Es.
    cbn [fst snd].
    assert (Hc2 : reached (store w) c2).
    { intros B field Hk Hs. rewrite <- (Hw0 B field Hk Hs).
      destruct Hk as (_ & _ & _ & _ & Hk). specialize (Hk media (store w0)).
      by rewrite Es in Hk. }
    destruct err as [e|]; intros E.
    { Done_inv E. exists c2. split; [exact Hc2|]. left. eauto. }
    bind_inv E. Done_inv E0.
    exists (set_state StateSetup c2). split; [by apply reached_set_state|].
    bind_inv E. apply deref_inv in E0 as (-> & o & Ho & ->).
    destruct (decide (Direction o = DirectionSendonly)).
    + rewrite allocate_assign in E. Done_inv E. right. right. eauto.
    + apply register_inv in E as [(e & -> & ->) | [-> Hs]].
      * left. eauto.
      * right. left. eauto.
  - exists (store w). split; [apply reached_refl|].
    apply register_inv in E as [(e & -> & ->) | [-> Hs]].
    + left. eauto.
    + right. left. eauto.
  - injection E as <- <-. exists (store w). split; [apply reached_refl|]. left. eauto.
Qed.

(** X6: [GetTrack] returns either a track and no error, or an error and no
    track: never both, never neither. *)
Theorem GetTrack_track_or_error media codec w r w' :
  GetTrack media codec w = Done r w' ->
  (exists t, r = (Some t, None)) \/ (exists e, r = (None, Some e)).
Proof.
  intros E. apply GetTrack_inv in E as (md & _ & [(t & _ & _ & -> & _) | (_ & c2 & _ & Hr)]).
  - left. eauto.
  - destruct Hr as [(e & -> & _) | [(ch & -> & _) | (ch & -> & _)]]; eauto.
Qed.

(** X7: A track that [GetTrack] returns is an object for the requested media
    reference, whose codec is the requested one or is compatible with
    it. *)
Theorem GetTrack_track_of_request media codec w t err w' :
  GetTrack media codec w = Done (Some t, err) w' ->
  exists o,
    receivers (store w') !! t = Some o
    /\ Media o = media
    /\ (Codec_ o = codec \/ Match (Codec_ o) codec = true).
Proof.
  intros E. apply GetTrack_inv in E as (md & _ & [(t' & _ & Hc & Hr & ->) | (_ & c2 & _ & Hr)]).
  - injection Hr as -> _. destruct Hc as (_ & _ & _ & (o & Ho & Hm & Hk) & _).
    exists o. auto.
  - destruct Hr as [(e & [=] & _) | [(ch & [= -> _] & ->) | (ch & [= -> _] & ->)]];
      eexists; (split; [cbn; apply list_lookup_middle; reflexivity|]); cbn; auto.
Qed.

(** X8: [GetTrack] only ever appends: when it returns, [c.Senders] is as
    before, and [c.Receivers] is as before or has the returned track as
    one new last element; after an error it is as before.  The session
    methods are assumed not to write the registries. *)
Theorem GetTrack_appends_only media codec w r w' :
  session_keeps Receivers -> session_keeps Senders ->
  GetTrack media codec w = Done r w' ->
  Senders (store w') = Senders (store w)
  /\ (Receivers (store w') = Receivers (store w)
      \/ exists t, r = (Some t, None) /\ Receivers (store w') = Receivers (store w) ++ [t])
  /\ (fst r = None -> Receivers (store w') = Receivers (store w)).
Proof.
  intros HR HS E.
  apply GetTrack_inv in E as (md & _ & [(t' & _ & _ & -> & ->) | (_ & c2 & Hc2 & Hr)]).
  { auto. }
  assert (HR2 : Receivers c2 = Receivers (store w)) by (by apply (reached_field Receivers)).
  assert (HS2 : Senders c2 = Senders (store w)) by (by apply (reached_field Senders)).
  destruct Hr as [(e & -> & ->) | [(ch & -> & ->) | (ch & -> & ->)]]; cbn.
  - auto.
  - split; [exact HS2|]. split; [|discriminate]. right. eexists. by rewrite HR2.
  - split; [exact HS2|]. split; [by left | discriminate].
Qed.

(** X9: [GetTrack] never registers a nil track: if every registered
    receiver points to an object before the call, the same holds when
    it returns.  The session methods are assumed not to write
    [c.Receivers] or the receiver objects. *)
Theorem GetTrack_keeps_allocated media codec w r w' :
  session_keeps Receivers -> session_keeps receivers ->
  allocated (receivers (store w)) (Receivers (store w)) ->
  GetTrack media codec w = Done r w' ->
  allocated (receivers (store w')) (Receivers (store w')).
Proof.
  intros HR Hr Halloc E.
  apply GetTrack_inv in E as (md & _ & [(t' & _ & _ & _ & ->) | (_ & c2 & Hc2 & Hres)]).
  { exact Halloc. }
  assert (HR2 : Receivers c2 = Receivers (store w)) by (by apply (reached_field Receivers)).
  assert (Hr2 : receivers c2 = receivers (store w)) by (by apply (reached_field receivers)).
  assert (Halloc2 : allocated (receivers c2) (Receivers c2)) by (by rewrite HR2, Hr2).
  assert (Hgrow : forall t o, t ∈ Receivers c2 -> is_Some ((receivers c2 ++ [o]) !! t)).
  { intros t o Ht. destruct (Halloc2 t Ht) as [x Hx]. exists x. by apply lookup_app_l_Some. }
  destruct Hres as [(e & _ & ->) | [(ch & _ & ->) | (ch & _ & ->)]]; cbn.
  - exact Halloc2.
  - intros t Ht. apply elem_of_app in Ht as [Ht|Ht]; [by apply Hgrow|].
    apply list_elem_of_singleton in Ht as ->. eexists. by apply list_lookup_middle.
  - intros t Ht. by apply Hgrow.
Qed.

(** X10: On a PassiveConsumer connection whose receivers have channel
    [byte(2 * position)], a new recvonly request keeps it so: channels
    follow the order of registration. *)
Theorem GetTrack_PassiveConsumer_channels w media codec md :
  mode (store w) = ModePassiveConsumer ->
  medias (store w) !! media = Some md -> Direction md = DirectionRecvonly ->
  not_cached (store w) media codec ->
  channels_by_position (store w) ->
  exists t w',
    GetTrack media codec w = Done (Some t, None) w'
    /\ channels_by_position (store w')
    /\ length (Receivers (store w')) = S (length (Receivers (store w))).
Proof.
  intros Hmode Hm Hd Hno Hinv. eexists _, _.
  split; [by apply GetTrack_PassiveConsumer_uncached with (md := md)|].
  cbn [store]. unfold with_receiver, set_Receivers, set_receivers.
  cbn [Receivers receivers]. split; [|rewrite length_app; simpl; lia].
  intros i t r Hi Ht. cbn [Receivers receivers] in Hi, Ht.
  destruct (decide (i < length (Receivers (store w)))%nat) as [Hlt|Hge].
  - rewrite lookup_app_l in Hi by exact Hlt.
    destruct (Hno t) as (o & Ho & _); [by apply list_elem_of_lookup_2 with (i := i)|].
    rewrite (lookup_app_l_Some _ _ _ _ Ho) in Ht. injection Ht as <-.
    by apply Hinv with (t := t).
  - assert (Hlen : i = length (Receivers (store w))).
    { apply lookup_lt_Some in Hi. rewrite length_app in Hi. simpl in Hi. lia. }
    subst i. rewrite list_lookup_middle in Hi by reflexivity. injection Hi as <-.
    rewrite list_lookup_middle in Ht by reflexivity. injection Ht as <-. reflexivity.
Qed.

(** X18: [Reconnect] throws away the channels that the replayed SETUPs
    return: every track object, and so every track's channel, is what
    it was before, whatever the new session answered.  The session
    methods are assumed not to write the track objects. *)
Theorem Reconnect_keeps_channels w err w' :
  session_keeps receivers -> session_keeps senders ->
  Reconnect w = Done err w' ->
  (forall t r, receivers (store w) !! t = Some r ->
     exists r', receivers (store w') !! t = Some r' /\ ID r' = ID r /\ Media r' = Media r)
  /\ senders (store w') = senders (store w).
Proof.
  intros Hr Hs E.
  rewrite (Reconnect_frame receivers w err w' Hr E).
  rewrite (Reconnect_frame senders w err w' Hs E).
  split; [|reflexivity]. intros t r Ht. by exists r.
Qed.

End GetTrackReturns.

(* ===================================================================== *)
(** * The properties on the scripted peer *)
(* ===================================================================== *)

Import scripted.

(** None of the scripted session methods writes anything. *)
Ltac scripted_keeps :=
  repeat split; intros; intros ?; reflexivity.

Ltac scripted_allocated :=
  let t := fresh "t" in
  let Ht := fresh "Ht" in
  intros t Ht;
  repeat (apply elem_of_cons in Ht as [->|Ht]; [by eexists|]);
  by apply elem_of_nil in Ht.



Lemma Start_from_Conn_witness :
  Start 3 (busy_conn ModePassiveProducer StateConn 0)
  = Done (Some (errors_New "start from CONN state")) (busy_conn ModePassiveProducer StateConn 0).
Proof.
  destruct (Start_from_Conn 2 None (busy_conn ModePassiveProducer StateConn 0) eq_refl)
    as [_ Hstart].
  apply Hstart. discriminate.
Defined.

(** C3, counterexample: a server-side request for the sendonly media 2
    returns no track and an error. *)
Lemma GetTrack_PassiveConsumer_sendonly_fails :
  let w := busy_conn ModePassiveConsumer StateSetup 0 in
  mode (store w) = ModePassiveConsumer
  /\ medias (store w) !! 2%nat = Some sendonly
  /\ GetTrack 2%nat PCMA w
     = Done (None, Some (errors_New
               "rtsp: GetTrack internal logic error for mode/direction: passive consumer/sendonly"))
            w.
Proof. cbv zeta. repeat split. Qed.

Lemma GetTrack_PassiveConsumer_not_recvonly_witness :
  GetTrack 3%nat PCMA (busy_conn ModePassiveConsumer StateNone 0)
  = Done (None, Some (errors_New
            "rtsp: GetTrack internal logic error for mode/direction: passive consumer/sendrecv"))
         (busy_conn ModePassiveConsumer StateNone 0).
Proof.
  apply (GetTrack_PassiveConsumer_not_recvonly
           (busy_conn ModePassiveConsumer StateNone 0) 3%nat PCMA sendrecv);
    [reflexivity | reflexivity | discriminate].
Defined.

(** C9, counterexample: with 128 receivers registered, the new track gets
    channel 0, which is not twice 128. *)
Lemma GetTrack_PassiveConsumer_crowded :
  mode (store crowded_conn) = ModePassiveConsumer
  /\ length (Receivers (store crowded_conn)) = 128%nat
  /\ exists w',
       GetTrack 132%nat H264 crowded_conn = Done (Some 128%nat, None) w'
       /\ ID <$> receivers (store w') !! 128%nat = Some 0
       /\ ID <$> receivers (store w') !! 0%nat = Some 0
       /\ 0 <> 2 * 128.
Proof.
  split; [vm_compute; reflexivity|]. split; [vm_compute; reflexivity|].
  eexists. split; [vm_compute; reflexivity|].
  split; [vm_compute; reflexivity|]. split; [vm_compute; reflexivity | discriminate].
Qed.

Lemma GetTrack_PassiveConsumer_recvonly_witness :
  exists w',
    GetTrack 4%nat H264 (busy_conn ModePassiveConsumer StateNone 0) = Done (Some 2%nat, None) w'
    /\ Receivers (store w') = [0; 1; 2]%nat
    /\ receivers (store w') !! 2%nat = Some (@Build_core_Receiver core 4%nat H264 4).
Proof.
  destruct (GetTrack_PassiveConsumer_recvonly
              (busy_conn ModePassiveConsumer StateNone 0) 4%nat H264 recvonly)
    as (w' & HG & _ & HR & _ & _ & Hr & _).
  - reflexivity.
  - reflexivity.
  - reflexivity.
  - apply not_cached_by_scan with (w' := busy_conn ModePassiveConsumer StateNone 0).
    vm_compute. reflexivity.
  - exists w'. split; [exact HG|]. split; [exact HR|]. rewrite Hr. reflexivity.
Defined.

Lemma PassiveConsumer_channel_wraps_witness :
  exists t w' r,
    GetTrack 132%nat H264 crowded_conn = Done (Some t, None) w'
    /\ receivers (store w') !! t = Some r
    /\ ID r = 0.
Proof.
  destruct (PassiveConsumer_channel_wraps crowded_conn 132%nat H264 recvonly)
    as (t & w' & r & HG & Hr & _ & _ & _ & _ & H128 & _).
  - vm_compute. reflexivity.
  - vm_compute. reflexivity.
  - reflexivity.
  - apply not_cached_by_scan with (w' := crowded_conn). vm_compute. reflexivity.
  - exists t, w', r. split; [exact HG|]. split; [exact Hr|].
    apply H128. vm_compute. reflexivity.
Defined.

Lemma GetTrack_ActiveProducer_sendonly_witness :
  let w := busy_conn ModeActiveProducer StatePlay 0 in
  exists w',
    GetTrack 2%nat PCMA w = Done (Some 2%nat, None) w'
    /\ receivers (store w') !! 2%nat = Some (@Build_core_Receiver core 2%nat PCMA 4)
    /\ state (store w') = StateSetup
    /\ Receivers (store w') = [0; 1]%nat
    /\ Senders (store w') = [0%nat].
Proof.
  cbv zeta.
  destruct (GetTrack_ActiveProducer_sendonly
              (busy_conn ModeActiveProducer StatePlay 0) 2%nat PCMA sendonly
              (world_after Reconnect (busy_conn ModeActiveProducer StatePlay 0))
              (store (world_after Reconnect (busy_conn ModeActiveProducer StatePlay 0))) 4)
    as (w' & HG & _ & Hr & Hs & HR & HS & _).
  - scripted_keeps.
  - scripted_keeps.
  - scripted_keeps.
  - reflexivity.
  - reflexivity.
  - reflexivity.
  - intros _. vm_compute. reflexivity.
  - intros Hne. exfalso. apply Hne. reflexivity.
  - vm_compute. reflexivity.
  - exists w'. split; [exact HG|]. split; [rewrite Hr; reflexivity|].
    split; [exact Hs|]. split; [exact HR | exact HS].
Defined.


Lemma Stop_spec_witness :
  Stop (busy_conn ModeActiveProducer StatePlay 4)
  = Done (Some (errors_New "close"))
         {| store := store (busy_conn ModeActiveProducer StateNone 4);
            calls := [Receiver_Close_call 0%nat (Some (errors_New "receiver close"));
                      Receiver_Close_call 1%nat None;
                      Sender_Close_call 0%nat None;
                      Close_call (Some (errors_New "close"))] |}.
Proof.
  destruct (Stop_spec (busy_conn ModeActiveProducer StatePlay 4))
    as (_ & _ & _ & _ & _ & Hclose).
  - intros t c. reflexivity.
  - intros t c. reflexivity.
  - intros t c. reflexivity.
  - destruct Hclose as [_ HStop]; [discriminate|]. exact HStop.
Defined.

Lemma Reconnect_spec_witness :
  Reconnect (busy_conn ModeActiveProducer StatePlay 3)
  = Done (Some (errors_New "setup"))
         {| store := store (busy_conn ModeActiveProducer StatePlay 3);
            calls := [Fire_call "RTSP reconnect"; Close_call None; Dial_call None;
                      Describe_call None; SetupMedia_call 0%nat 0 None;
                      SetupMedia_call 1%nat 2 (Some (errors_New "setup"))] |}
  /\ exists tr c' err,
       reconnect_steps [0; 1; 2]%nat (store (busy_conn ModeActiveProducer StatePlay 3))
         tr c' err
       /\ Reconnect (busy_conn ModeActiveProducer StatePlay 3)
          = Done err {| store := c'; calls := tr |}.
Proof.
  split; [vm_compute; reflexivity|].
  destruct (Reconnect_spec (busy_conn ModeActiveProducer StatePlay 3))
    as (err & c' & tr & HR & Htr & _).
  - scripted_keeps.
  - scripted_keeps.
  - scripted_keeps.
  - scripted_keeps.
  - scripted_allocated.
  - scripted_allocated.
  - exists tr, c', err. split; [exact Htr | exact HR].
Defined.


(** C6, counterexample: with a [Dial] that leaves the connection in
    [StateConn], [Reconnect] on a playing connection succeeds and the
    state afterwards is [StateConn], not [StatePlay]; the registries
    are as before. *)
Lemma Reconnect_leaves_StateConn :
  let w := busy_conn ModeActiveProducer StatePlay 0 in
  state (store w) = StatePlay
  /\ exists w',
       @Reconnect core dialing w = Done None w'
       /\ state (store w') = StateConn
       /\ Receivers (store w') = Receivers (store w)
       /\ Senders (store w') = Senders (store w).
Proof.
  cbv zeta. split; [reflexivity|]. eexists.
  split; [vm_compute; reflexivity|]. repeat split.
Qed.

(** ** Further properties on the scripted peer *)

Lemma Start_from_None_witness :
  Start 1 (busy_conn ModeActiveProducer StateNone 0)
  = Done None (busy_conn ModeActiveProducer StateNone 0).
Proof.
  destruct (Start_from_None 0 None (busy_conn ModeActiveProducer StateNone 0) eq_refl)
    as [_ Hstart].
  apply Hstart. discriminate.
Defined.

Lemma Start_Play_failed_witness :
  Start 1 (busy_conn ModeActiveProducer StateSetup 5)
  = Done (Some (errors_New "play"))
         {| store := store (busy_conn ModeActiveProducer StateSetup 5);
            calls := [Play_call (Some (errors_New "play"))] |}.
Proof.
  apply (Start_Play_failed 0 (busy_conn ModeActiveProducer StateSetup 5)
           (store (busy_conn ModeActiveProducer StateSetup 5)) (errors_New "play"));
    reflexivity.
Defined.

Lemma Start_after_Handle_witness :
  Start 2 (busy_conn ModeActiveProducer StateSetup 6)
  = Done (Some (errors_New "handle"))
         {| store := store (busy_conn ModeActiveProducer StatePlay 6);
            calls := [Play_call None; Handle_call (Some (errors_New "handle"))] |}.
Proof.
  destruct (Start_after_Handle 0 (busy_conn ModeActiveProducer StateSetup 6)
              (store (busy_conn ModeActiveProducer StateSetup 6))
              (store (busy_conn ModeActiveProducer StatePlay 6))
              (Some (errors_New "handle")))
    as (_ & Hplay & _); [reflexivity ..|].
  apply Hplay. reflexivity.
Defined.

Lemma Start_nil_state_witness :
  state (store (world_after (Start_loop 2 None) (busy_conn ModeActiveProducer StateSetup 0)))
  = StateNone
  \/ state (store (world_after (Start_loop 2 None) (busy_conn ModeActiveProducer StateSetup 0)))
     = StatePlay.
Proof.
  apply (Start_nil_state 2 None (busy_conn ModeActiveProducer StateSetup 0)).
  vm_compute. reflexivity.
Defined.

Lemma Start_calls_witness :
  exists tr,
    calls (world_after (Start 2) (busy_conn ModeActiveProducer StateSetup 0)) = tr
    /\ start_trace ModeActiveProducer tr.
Proof.
  destruct (Start_calls 2 (busy_conn ModeActiveProducer StateSetup 0) None
              (world_after (Start 2) (busy_conn ModeActiveProducer StateSetup 0)))
    as (_ & tr & Hcalls & Htr & _).
  - intros c. reflexivity.
  - intros c. unfold Handle, methods. destruct (decide _); reflexivity.
  - vm_compute. reflexivity.
  - exists tr. split; [exact Hcalls | exact Htr].
Defined.

Lemma Stop_keeps_registries_witness :
  exists err w',
    Stop (busy_conn ModeActiveProducer StatePlay 4) = Done err w'
    /\ Receivers (store w') = [0; 1]%nat
    /\ Senders (store w') = [0%nat].
Proof.
  apply (Stop_keeps_registries (busy_conn ModeActiveProducer StatePlay 4));
    intros; intros ?; reflexivity.
Defined.

Lemma Stop_twice_witness :
  exists err w1,
    Stop (busy_conn ModeActiveProducer StatePlay 4) = Done err w1
    /\ state (store w1) = StateNone
    /\ exists c2 rr sr,
         Stop w1 = Done None
                     {| store := c2;
                        calls := calls w1 ++ zip_with Receiver_Close_call [0; 1]%nat rr
                                          ++ zip_with Sender_Close_call [0%nat] sr |}
         /\ rr !! 0%nat = Some (snd (Receiver_Close 0%nat (store w1)))
         /\ length rr = 2%nat /\ length sr = 1%nat.
Proof.
  destruct (Stop_twice (busy_conn ModeActiveProducer StatePlay 4))
    as (err & w1 & E1 & Hnone & Hlr & Hls & Hr & _ & E2).
  - intros t c. reflexivity.
  - intros t c. reflexivity.
  - intros c. reflexivity.
  - exists err, w1. split; [exact E1|]. split; [exact Hnone|].
    eexists _, _, _. split; [exact E2|].
    split; [exact (Hr 0%nat 0%nat eq_refl)|]. split; [exact Hlr | exact Hls].
Defined.

Lemma GetTrack_ActiveProducer_recvonly_witness :
  exists w',
    GetTrack 4%nat H264 (busy_conn ModeActiveProducer StatePlay 0) = Done (Some 2%nat, None) w'
    /\ state (store w') = StateSetup
    /\ Receivers (store w') = [0; 1; 2]%nat
    /\ Senders (store w') = [0%nat].
Proof.
  destruct (GetTrack_ActiveProducer_recvonly
              (busy_conn ModeActiveProducer StatePlay 0) 4%nat H264 recvonly
              (world_after Reconnect (busy_conn ModeActiveProducer StatePlay 0))
              (store (world_after Reconnect (busy_conn ModeActiveProducer StatePlay 0))) 8)
    as (w' & HG & _ & Hs & HR & HS & _).
  - scripted_keeps.
  - scripted_keeps.
  - scripted_keeps.
  - reflexivity.
  - reflexivity.
  - reflexivity.
  - apply not_cached_by_scan with (w' := busy_conn ModeActiveProducer StatePlay 0).
    vm_compute. reflexivity.
  - intros _. vm_compute. reflexivity.
  - intros Hne. exfalso. apply Hne. reflexivity.
  - vm_compute. reflexivity.
  - exists w'. split; [exact HG|]. split; [exact Hs|]. split; [exact HR | exact HS].
Defined.

Lemma GetTrack_Reconnect_failed_witness :
  GetTrack 4%nat H264 (busy_conn ModeActiveProducer StatePlay 2)
  = Done (None, Some (errors_New "describe"))
         (world_after Reconnect (busy_conn ModeActiveProducer StatePlay 2)).
Proof.
  apply (GetTrack_Reconnect_failed (busy_conn ModeActiveProducer StatePlay 2)
           4%nat H264 recvonly).
  - reflexivity.
  - reflexivity.
  - reflexivity.
  - intros _. apply not_cached_by_scan with (w' := busy_conn ModeActiveProducer StatePlay 2).
    vm_compute. reflexivity.
  - vm_compute. reflexivity.
Defined.

Lemma GetTrack_SetupMedia_failed_witness :
  GetTrack 1%nat H264 (busy_conn ModeActiveProducer StateSetup 3)
  = Done (None, Some (errors_New "setup"))
         {| store := store (busy_conn ModeActiveProducer StateSetup 3);
            calls := [SetupMedia_call 1%nat 2 (Some (errors_New "setup"))] |}.
Proof.
  apply (GetTrack_SetupMedia_failed (busy_conn ModeActiveProducer StateSetup 3)
           1%nat H264 recvonly (busy_conn ModeActiveProducer StateSetup 3)).
  - reflexivity.
  - reflexivity.
  - intros _. apply not_cached_by_scan with (w' := busy_conn ModeActiveProducer StateSetup 3).
    vm_compute. reflexivity.
  - intros Hs. discriminate Hs.
  - intros _. reflexivity.
  - vm_compute. reflexivity.
Defined.

Lemma GetTrack_ActiveProducer_other_direction_witness :
  GetTrack 3%nat PCMA (busy_conn ModeActiveProducer StateNone 0)
  = Done (None, Some (errors_New
            "rtsp: GetTrack internal logic error for mode/direction: active producer/sendrecv"))
         {| store := store (busy_conn ModeActiveProducer StateSetup 0);
            calls := [SetupMedia_call 3%nat 6 None] |}.
Proof.
  apply (GetTrack_ActiveProducer_other_direction (busy_conn ModeActiveProducer StateNone 0)
           3%nat PCMA sendrecv (busy_conn ModeActiveProducer StateNone 0)
           (store (busy_conn ModeActiveProducer StateNone 0)) 6).
  - scripted_keeps.
  - reflexivity.
  - reflexivity.
  - discriminate.
  - discriminate.
  - intros Hs. discriminate Hs.
  - intros _. reflexivity.
  - vm_compute. reflexivity.
Defined.

Lemma GetTrack_PassiveProducer_witness :
  GetTrack 0%nat H264 (busy_conn ModePassiveProducer StateSetup 0)
  = Done (Some 0%nat, None) (busy_conn ModePassiveProducer StateSetup 0)
  /\ GetTrack 2%nat PCMA (busy_conn ModePassiveProducer StateSetup 0)
     = Done (None, Some (errors_New "rtsp: wrong mode for GetTrack: passive producer"))
            (busy_conn ModePassiveProducer StateSetup 0).
Proof.
  split.
  - destruct (GetTrack_PassiveProducer (busy_conn ModePassiveProducer StateSetup 0)
                0%nat H264 recvonly eq_refl eq_refl) as [Hhit _].
    apply Hhit; [reflexivity|].
    exists [], [1%nat]. split; [reflexivity|]. split.
    + eexists. split; [reflexivity|]. split; reflexivity.
    + intros u Hu. by apply elem_of_nil in Hu.
  - destruct (GetTrack_PassiveProducer (busy_conn ModePassiveProducer StateSetup 0)
                2%nat PCMA sendonly eq_refl eq_refl) as [_ Hmiss].
    apply Hmiss. intros Hd. discriminate Hd.
Defined.

Lemma GetTrack_track_or_error_witness :
  (exists t, (@None ptr, Some (errors_New "setup")) = (Some t, None))
  \/ (exists e, (@None ptr, Some (errors_New "setup")) = (None, Some e)).
Proof.
  apply (GetTrack_track_or_error 1%nat H264 (busy_conn ModeActiveProducer StateSetup 3)
           (None, Some (errors_New "setup"))
           (world_after (GetTrack 1%nat H264) (busy_conn ModeActiveProducer StateSetup 3))).
  vm_compute. reflexivity.
Defined.

Lemma GetTrack_track_of_request_witness :
  exists o,
    receivers (store (world_after (GetTrack 4%nat H264)
                        (busy_conn ModeActiveProducer StateSetup 0))) !! 2%nat = Some o
    /\ Media o = 4%nat
    /\ (Codec_ o = H264 \/ Match (Codec_ o) H264 = true).
Proof.
  apply (GetTrack_track_of_request 4%nat H264 (busy_conn ModeActiveProducer StateSetup 0)
           2%nat None).
  vm_compute. reflexivity.
Defined.

Lemma GetTrack_appends_only_witness :
  let w := busy_conn ModeActiveProducer StateSetup 0 in
  let w' := world_after (GetTrack 4%nat H264) w in
  Senders (store w') = Senders (store w)
  /\ (Receivers (store w') = Receivers (store w)
      \/ exists t, (Some 2%nat, @None error) = (Some t, None)
                   /\ Receivers (store w') = Receivers (store w) ++ [t])
  /\ (fst (Some 2%nat, @None error) = None -> Receivers (store w') = Receivers (store w)).
Proof.
  cbv zeta.
  apply (GetTrack_appends_only 4%nat H264 (busy_conn ModeActiveProducer StateSetup 0)).
  - scripted_keeps.
  - scripted_keeps.
  - vm_compute. reflexivity.
Defined.

Lemma GetTrack_keeps_allocated_witness :
  let w' := world_after (GetTrack 4%nat H264) (busy_conn ModeActiveProducer StateSetup 0) in
  allocated (receivers (store w')) (Receivers (store w')).
Proof.
  cbv zeta.
  apply (GetTrack_keeps_allocated 4%nat H264 (busy_conn ModeActiveProducer StateSetup 0)
           (Some 2%nat, None)).
  - scripted_keeps.
  - scripted_keeps.
  - scripted_allocated.
  - vm_compute. reflexivity.
Defined.

Lemma GetTrack_PassiveConsumer_channels_witness :
  exists t w',
    GetTrack 4%nat H264 (busy_conn ModePassiveConsumer StateNone 0) = Done (Some t, None) w'
    /\ channels_by_position (store w')
    /\ length (Receivers (store w')) = 3%nat.
Proof.
  apply (GetTrack_PassiveConsumer_channels
           (busy_conn ModePassiveConsumer StateNone 0) 4%nat H264 recvonly).
  - reflexivity.
  - reflexivity.
  - reflexivity.
  - apply not_cached_by_scan with (w' := busy_conn ModePassiveConsumer StateNone 0).
    vm_compute. reflexivity.
  - intros [|[|i]] t r Hi Ht; [| |discriminate Hi].
    + injection Hi as <-. injection Ht as <-. reflexivity.
    + injection Hi as <-. injection Ht as <-. reflexivity.
Defined.

Lemma Reconnect_keeps_channels_witness :
  let w' := world_after Reconnect (busy_conn ModeActiveProducer StatePlay 0) in
  (forall t r,
     receivers (store (busy_conn ModeActiveProducer StatePlay 0)) !! t = Some r ->
     exists r', receivers (store w') !! t = Some r' /\ ID r' = ID r /\ Media r' = Media r)
  /\ senders (store w') = senders (store (busy_conn ModeActiveProducer StatePlay 0)).
Proof.
  cbv zeta.
  apply (Reconnect_keeps_channels (busy_conn ModeActiveProducer StatePlay 0) None).
  - scripted_keeps.
  - scripted_keeps.
  - vm_compute. reflexivity.
Defined.
